(** * The cursor-rules validator ([.github/scripts/validate-rules.js])

    A shallow embedding of the rule-file validator and the properties of
    its behaviour.  JavaScript strings are sequences of UTF-16 code units;
    they are modelled as lists of [N].  The standard-library methods the
    script calls ([startsWith], [includes], [indexOf], [substring], [trim],
    [split], [match]) are given by executable definitions that follow the
    ECMAScript semantics, the two regular-expression literals of the script
    by a small backtracking matcher run on their syntax trees. *)

From Stdlib Require Import ZArith Lia Ascii String DecimalString.
From stdpp Require Import base option list strings gmap.

Set Default Proof Using "Type".

(** ** JavaScript strings *)

Module JS.

Definition jsstring := list N.

(** A literal of the source text, as code units (the script's literals
    that are written here are all ASCII). *)
Definition lit (s : string) : jsstring :=
  (λ a, N_of_ascii a) <$> list_ascii_of_string s.

(** ["\n"] *)
Definition NL : N := 10%N.

Definition chr (s : string) : N :=
  match s with
  | String a _ => N_of_ascii a
  | EmptyString => 0%N
  end.

(** Lines joined by ["\n"], for writing documents down. *)
Fixpoint text (ls : list string) : jsstring :=
  match ls with
  | [] => []
  | [l] => lit l
  | l :: ls' => lit l ++ NL :: text ls'
  end.

(** [s.startsWith(p)] *)
Fixpoint startsWith (s p : jsstring) {struct p} : bool :=
  match p, s with
  | [], _ => true
  | c :: p', x :: s' => (x =? c)%N && startsWith s' p'
  | _ :: _, [] => false
  end.

(** Offset of the first occurrence of [p] in [s]. *)
Fixpoint find (s p : jsstring) : option nat :=
  if startsWith s p then Some 0
  else match s with
       | [] => None
       | _ :: t => S <$> find t p
       end.

(** [s.indexOf(p, from)]: the start position is clamped to [0, s.length];
    the result is [-1] when there is no occurrence at or after it. *)
Definition indexOf (s p : jsstring) (from : Z) : Z :=
  let k := Z.to_nat (Z.max 0 (Z.min from (Z.of_nat (length s)))) in
  match find (drop k s) p with
  | Some i => Z.of_nat (k + i)
  | None => (-1)%Z
  end.

(** [s.includes(p)] *)
Definition includes (s p : jsstring) : bool :=
  bool_decide (indexOf s p 0 ≠ (-1)%Z).

(** [s.substring(a, b)]: both ends are clamped to [0, s.length] and
    swapped when [a > b]. *)
Definition substring (s : jsstring) (a b : Z) : jsstring :=
  let clamp x := Z.max 0 (Z.min x (Z.of_nat (length s))) in
  let lo := Z.min (clamp a) (clamp b) in
  let hi := Z.max (clamp a) (clamp b) in
  take (Z.to_nat (hi - lo)) (drop (Z.to_nat lo) s).

(** [s.substring(a)] *)
Definition substringFrom (s : jsstring) (a : Z) : jsstring :=
  substring s a (Z.of_nat (length s)).

(** ECMAScript [LineTerminator] code units. *)
Definition isLineTerminator (c : N) : bool :=
  ((c =? 10) || (c =? 13) || (c =? 8232) || (c =? 8233))%N.

(** ECMAScript [WhiteSpace] and [LineTerminator] code units: what [trim]
    strips and what [\s] matches. *)
Definition isSpace (c : N) : bool :=
  ((c =? 9) || (c =? 11) || (c =? 12) || (c =? 32) || (c =? 160)
   || (c =? 5760) || ((8192 <=? c) && (c <=? 8202)) || (c =? 8239)
   || (c =? 8287) || (c =? 12288) || (c =? 65279)
   || isLineTerminator c)%N.

(** [\w], that is [[A-Za-z0-9_]]. *)
Definition isWord (c : N) : bool :=
  (((65 <=? c) && (c <=? 90)) || ((97 <=? c) && (c <=? 122))
   || ((48 <=? c) && (c <=? 57)) || (c =? 95))%N.

Fixpoint trimStart (s : jsstring) : jsstring :=
  match s with
  | c :: t => if isSpace c then trimStart t else s
  | [] => []
  end.

Definition trimEnd (s : jsstring) : jsstring :=
  reverse (trimStart (reverse s)).

(** [s.trim()] *)
Definition trim (s : jsstring) : jsstring := trimEnd (trimStart s).

(** [s.split(sep)] for a non-empty separator: the segments between the
    successive occurrences of [sep], found left to right.  Every step
    removes at least one code unit, so [length s] steps are enough. *)
Fixpoint split_steps (n : nat) (s sep : jsstring) : list jsstring :=
  match n with
  | 0 => [s]
  | S n' =>
      match find s sep with
      | None => [s]
      | Some i => take i s :: split_steps n' (drop (i + length sep) s) sep
      end
  end.

Definition split (s sep : jsstring) : list jsstring :=
  split_steps (length s) s sep.

End JS.

Import JS.

(** ** Regular expressions

    The fragment of ECMAScript patterns that the script uses: literal
    characters, character classes (a predicate on code units), [$] without
    the [m] flag, sequence, alternation, greedy [*] and [+], and capturing
    groups. *)

Inductive regex : Type :=
| Eps
| Chr (c : N)
| Cls (p : N → bool)
| Eos
| Seq (r1 r2 : regex)
| Alt (r1 r2 : regex)
| Star (r : regex)
| Grp (i : nat) (r : regex).

Definition Plus (r : regex) : regex := Seq r (Star r).

Fixpoint Str (cs : jsstring) : regex :=
  match cs with
  | [] => Eps
  | c :: cs' => Seq (Chr c) (Str cs')
  end.

(** The text of the capturing groups that took part in a match. *)
Abbreviation captures := (gmap nat jsstring).

(** The iterations of a greedy [r*]: [step] is the matcher of [r], [k]
    what follows the star.  One more iteration is tried first, and it must
    consume input (ECMAScript rejects an empty iteration); only when that
    fails is the rest handed to [k].  [n] bounds the iterations that are
    left and starts at the length of the input. *)
Definition star_iter {R : Type}
    (step : jsstring → captures → (jsstring → captures → option R) → option R)
    (k : jsstring → captures → option R)
    : nat → jsstring → captures → option R :=
  fix iter (n : nat) (s : jsstring) (caps : captures) : option R :=
    let more :=
      match n with
      | 0 => None
      | S n' =>
          step s caps
            (λ s1 c1, if length s1 <? length s then iter n' s1 c1 else None)
      end in
    match more with
    | Some x => Some x
    | None => k s caps
    end.

(** The backtracking matcher, in continuation-passing style as in the
    ECMAScript specification: [run r s caps k] matches [r] at the head of
    [s] and hands the rest of the input and the captures to [k]; when [k]
    fails, the next alternative of [r] is tried. *)
Fixpoint run {R : Type} (r : regex) (s : jsstring) (caps : captures)
    (k : jsstring → captures → option R) {struct r} : option R :=
  match r with
  | Eps => k s caps
  | Chr c =>
      match s with
      | x :: t => if (x =? c)%N then k t caps else None
      | [] => None
      end
  | Cls p =>
      match s with
      | x :: t => if p x then k t caps else None
      | [] => None
      end
  | Eos =>
      match s with
      | [] => k [] caps
      | _ :: _ => None
      end
  | Seq r1 r2 => run r1 s caps (λ s1 c1, run r2 s1 c1 k)
  | Alt r1 r2 =>
      match run r1 s caps k with
      | Some x => Some x
      | None => run r2 s caps k
      end
  | Star r1 => star_iter (run r1) k (length s) s caps
  | Grp i r1 =>
      run r1 s caps
        (λ s1 c1, k s1 (<[i := take (length s - length s1) s]> c1))
  end.

(** The array a successful match returns: the matched text (index [0])
    and the groups. *)
Record MatchResult := { whole : jsstring; groups : captures }.

(** One attempt at the head of [s]. *)
Definition matchAt (r : regex) (s : jsstring) : option MatchResult :=
  run r s ∅
    (λ rest c, Some {| whole := take (length s - length rest) s; groups := c |}).

(** [s.match(r)] for a pattern without the [g] flag: the first start
    position, from the left, at which the pattern matches. *)
Fixpoint matchFirst (r : regex) (s : jsstring) : option MatchResult :=
  match matchAt r s with
  | Some m => Some m
  | None =>
      match s with
      | [] => None
      | _ :: t => matchFirst r t
      end
  end.

(** [s.match(r) || []] for a pattern with the [g] flag: the texts of the
    successive matches.  After a match the scan resumes behind it (one
    position further when the match is empty); [skip] counts the code
    units of the last match that are still to be passed. *)
Fixpoint matchAllFrom (r : regex) (skip : nat) (s : jsstring) : list jsstring :=
  match skip, s with
  | S k, _ :: t => matchAllFrom r k t
  | S _, [] => []
  | 0, _ =>
      match matchAt r s with
      | Some m =>
          whole m ::
            match s with
            | [] => []
            | _ :: t => matchAllFrom r (pred (length (whole m))) t
            end
      | None =>
          match s with
          | [] => []
          | _ :: t => matchAllFrom r 0 t
          end
      end
  end.

Definition matchAll (r : regex) (s : jsstring) : list jsstring :=
  matchAllFrom r 0 s.

(** ** The validator *)

(** [const REQUIRED_SECTIONS = ['Description', 'Globs']] *)
Definition REQUIRED_SECTIONS : list jsstring := [lit "Description"; lit "Globs"].

(** The delimiter line ['\n---\n']. *)
Definition DELIM : jsstring := NL :: lit "---" ++ [NL].

(** The class of [.] (without the [s] flag). *)
Definition isDot (c : N) : bool := negb (isLineTerminator c).

(** [/Globs:\s*(.+)(\n|$)/] *)
Definition globsRegex : regex :=
  Seq (Str (lit "Globs:"))
    (Seq (Star (Cls isSpace))
       (Seq (Grp 1 (Plus (Cls isDot))) (Grp 2 (Alt (Chr NL) Eos)))).

(** The class [[\w-]]. *)
Definition isRefChar (c : N) : bool := isWord c || (c =? chr "-")%N.

(** [/@[\w-]+\.mdc/g] *)
Definition refRegex : regex :=
  Seq (Chr (chr "@")) (Seq (Plus (Cls isRefChar)) (Str (lit ".mdc"))).

(** The six messages the validator pushes. *)
Definition MissingHeaderBlock : jsstring :=
  lit "File does not start with frontmatter (---)".
Definition UnterminatedHeaderBlock : jsstring :=
  lit "Frontmatter is not properly closed (missing --- line)".
Definition MissingRequiredKey (section : jsstring) : jsstring :=
  lit "Missing required frontmatter section: " ++ section.
Definition EmptyRequiredValue : jsstring :=
  lit "Globs section is empty".
Definition DanglingReference (referencedFile : jsstring) : jsstring :=
  lit "References non-existent rule file: " ++ referencedFile.
Definition EmptyBodyContent : jsstring :=
  lit "Missing header sections (no # found)".

(** The value [allRules] holds for a rule file: [{ path: filePath }]. *)
Record RuleEntry := { path : jsstring }.

Record Validation := { valid : bool; errors : list jsstring }.

(** [frontmatter] as the script extracts it. *)
Definition frontmatterOf (content : jsstring) : jsstring :=
  if startsWith content (lit "---") then
    let endOfFrontmatter := indexOf content DELIM 3 in
    if bool_decide (endOfFrontmatter ≠ (-1)%Z)
    then trim (substring content 3 endOfFrontmatter)
    else []
  else [].

(** [content.split('\n---\n')[1] || ''] *)
Definition mainContentOf (content : jsstring) : jsstring :=
  default [] (split content DELIM !! 1).

(** The references the script looks up: each match without its [@]. *)
Definition referencesOf (content : jsstring) : list jsstring :=
  (λ ref, substringFrom ref 1) <$> matchAll refRegex content.

(** [validateRuleFile(filename, content, allRules)]; every [errors.push]
    appends at the end of the array.  The first group of [globsRegex]
    takes part in every match ([globsRegex_group1] below), so that
    [globsMatch[1]] is a string and the default is never used. *)
Definition validateRuleFile (filename content : jsstring)
    (allRules : gmap jsstring RuleEntry) : Validation :=
  let errors : list jsstring := [] in
  let errors :=
    if negb (startsWith content (lit "---"))
    then errors ++ [MissingHeaderBlock] else errors in
  let errors :=
    if negb (includes content DELIM)
    then errors ++ [UnterminatedHeaderBlock] else errors in
  let frontmatter := frontmatterOf content in
  let errors :=
    foldl (λ errors section,
             if negb (includes frontmatter (section ++ lit ":"))
             then errors ++ [MissingRequiredKey section] else errors)
          errors REQUIRED_SECTIONS in
  let errors :=
    match matchFirst globsRegex frontmatter with
    | Some globsMatch =>
        let globs := trim (default [] (groups globsMatch !! 1)) in
        if bool_decide (globs = []) then errors ++ [EmptyRequiredValue] else errors
    | None => errors
    end in
  let errors :=
    foldl (λ errors referencedFile,
             if negb (bool_decide (is_Some (allRules !! referencedFile)))
             then errors ++ [DanglingReference referencedFile] else errors)
          errors (referencesOf content) in
  let mainContent := mainContentOf content in
  let errors :=
    if negb (includes mainContent (lit "#"))
    then errors ++ [EmptyBodyContent] else errors in
  {| valid := bool_decide (length errors = 0); errors := errors |}.

Arguments validateRuleFile : simpl never.

(** ** The driver *)

Inductive Stream := Stdout | Stderr.
Inductive Color := Blue | Red | Green | Yellow.

(** [fs.readFileSync(filePath, 'utf8')] returns the text or throws. *)
Inductive ReadResult :=
| ReadOk (content : jsstring)
| ReadThrows (err : jsstring).

(** What a run takes from its surroundings: the rules directory
    ([path.resolve(process.cwd(), '.cursor/rules')]), the file system,
    [path.join] and the styling of [chalk], whose results the script
    only prints or stores. *)
Record Env := {
  RULES_DIR : jsstring;
  existsSync : jsstring → bool;
  globSync : jsstring → list jsstring;
  readFileSync : jsstring → ReadResult;
  pathJoin : jsstring → jsstring → jsstring;
  chalk : Color → jsstring → jsstring
}.

(** A line written by [console.log] ([Stdout]) or by [console.error] and
    [console.warn] ([Stderr]). *)
Definition Line : Type := Stream * jsstring.

Record Outcome := { console : list Line; exitCode : Z }.

(** [`${n}`] for an array length. *)
Definition decimal (n : nat) : jsstring :=
  lit (NilZero.string_of_uint (Nat.to_uint n)).

(** The check mark and the cross of the per-file lines. *)
Definition CHECK : N := 10003%N.
Definition CROSS : N := 10007%N.

(** The first pass: [allRules.set(file, { path: filePath })] for every
    file, in enumeration order. *)
Definition firstPass (e : Env) (ruleFiles : list jsstring) : gmap jsstring RuleEntry :=
  foldl (λ allRules file, <[file := {| path := pathJoin e (RULES_DIR e) file |}]> allRules)
        ∅ ruleFiles.

Record RunState := {
  hasErrors : bool;
  validFiles : list jsstring;
  printed : list Line
}.

(** The lines of a file with errors. *)
Definition errorLines (e : Env) (file : jsstring) (errs : list jsstring) : list Line :=
  (Stderr, chalk e Red (CROSS :: lit " " ++ file))
    :: ((λ error, (Stderr, chalk e Red (lit "  - " ++ error))) <$> errs).

(** The second pass: the loop over [ruleFiles]; the result carries the
    error when a read throws, which ends the loop. *)
Fixpoint secondPass (e : Env) (allRules : gmap jsstring RuleEntry)
    (ruleFiles : list jsstring) (st : RunState) : RunState * option jsstring :=
  match ruleFiles with
  | [] => (st, None)
  | file :: rest =>
      let filePath := pathJoin e (RULES_DIR e) file in
      match readFileSync e filePath with
      | ReadThrows err => (st, Some err)
      | ReadOk content =>
          let result := validateRuleFile file content allRules in
          if valid result then
            secondPass e allRules rest
              {| hasErrors := hasErrors st;
                 validFiles := validFiles st ++ [file];
                 printed := printed st ++ [(Stdout, chalk e Green (CHECK :: lit " " ++ file))] |}
          else
            secondPass e allRules rest
              {| hasErrors := true;
                 validFiles := validFiles st;
                 printed := printed st ++ errorLines e file (errors result) |}
      end
  end.

(** [validateRules()] with the handler of its rejection: what the process
    prints and the code it exits with ([0] when it runs to its end). *)
Definition validateRules (e : Env) : Outcome :=
  let out := [(Stdout, chalk e Blue (lit "Validating Cursor rules..."))] in
  if negb (existsSync e (RULES_DIR e)) then
    {| console := out ++ [(Stderr, chalk e Red (lit "Error: Rules directory not found at " ++ RULES_DIR e))];
       exitCode := 1 |}
  else
    let ruleFiles := globSync e (RULES_DIR e) in
    if bool_decide (length ruleFiles = 0) then
      {| console := out ++ [(Stderr, chalk e Yellow (lit "Warning: No rule files found"))];
         exitCode := 0 |}
    else
      let out := out ++ [(Stdout, chalk e Green (lit "Found " ++ decimal (length ruleFiles) ++ lit " rule files"))] in
      let allRules := firstPass e ruleFiles in
      match secondPass e allRules ruleFiles
              {| hasErrors := false; validFiles := []; printed := out |} with
      | (st, Some err) =>
          {| console := printed st ++ [(Stderr, chalk e Red (lit "Error during validation:") ++ lit " " ++ err)];
             exitCode := 1 |}
      | (st, None) =>
          let out := printed st
            ++ [(Stdout, NL :: chalk e Blue (lit "Validation Summary:"));
                (Stdout, chalk e Green (CHECK :: lit " " ++ decimal (length (validFiles st)) ++ lit " valid files"));
                (Stdout, chalk e Red (CROSS :: lit " " ++ decimal (length ruleFiles - length (validFiles st)) ++ lit " files with errors"))] in
          if hasErrors st then {| console := out; exitCode := 1 |}
          else {| console := out ++ [(Stdout, chalk e Green (NL :: lit "All rules are valid!"))];
                  exitCode := 0 |}
      end.

(** ** The diagnostics of one document, check by check *)

Definition headerErrors (content : jsstring) : list jsstring :=
  if startsWith content (lit "---") then [] else [MissingHeaderBlock].

Definition closingErrors (content : jsstring) : list jsstring :=
  if includes content DELIM then [] else [UnterminatedHeaderBlock].

Definition keyErrors (frontmatter : jsstring) : list jsstring :=
  MissingRequiredKey <$>
    filter (λ section, includes frontmatter (section ++ lit ":") = false) REQUIRED_SECTIONS.

Definition globsErrors (frontmatter : jsstring) : list jsstring :=
  match matchFirst globsRegex frontmatter with
  | Some globsMatch =>
      if bool_decide (trim (default [] (groups globsMatch !! 1)) = [])
      then [EmptyRequiredValue] else []
  | None => []
  end.

Definition referenceErrors (content : jsstring) (allRules : gmap jsstring RuleEntry)
    : list jsstring :=
  DanglingReference <$> filter (λ t, allRules !! t = None) (referencesOf content).

Definition bodyErrors (content : jsstring) : list jsstring :=
  if includes (mainContentOf content) (lit "#") then [] else [EmptyBodyContent].

(** ** The documents of a run *)

(** The files of a run, in enumeration order. *)
Definition ruleFilesOf (e : Env) : list jsstring := globSync e (RULES_DIR e).

Definition readOf (e : Env) (file : jsstring) : ReadResult :=
  readFileSync e (pathJoin e (RULES_DIR e) file).

(** Every file of the run can be read. *)
Definition readable (e : Env) : bool :=
  forallb (λ file, match readOf e file with ReadOk _ => true | ReadThrows _ => false end)
          (ruleFilesOf e).

(** The diagnostics the run produces for one of its files. *)
Definition diagnosticsOf (e : Env) (file : jsstring) : list jsstring :=
  match readOf e file with
  | ReadOk content =>
      errors (validateRuleFile file content (firstPass e (ruleFilesOf e)))
  | ReadThrows _ => []
  end.

(** The lines the second pass prints for a file with the text
    [content]: the check mark, or the cross and one line per error. *)
Definition fileLines (e : Env) (allRules : gmap jsstring RuleEntry)
    (file content : jsstring) : list Line :=
  if valid (validateRuleFile file content allRules)
  then [(Stdout, chalk e Green (CHECK :: lit " " ++ file))]
  else errorLines e file (errors (validateRuleFile file content allRules)).

(** The lines printed for a file of the run, and whether it passes. *)
Definition reportOf (e : Env) (allRules : gmap jsstring RuleEntry)
    (file : jsstring) : list Line :=
  match readOf e file with
  | ReadOk content => fileLines e allRules file content
  | ReadThrows _ => []
  end.

Definition passes (e : Env) (allRules : gmap jsstring RuleEntry)
    (file : jsstring) : bool :=
  match readOf e file with
  | ReadOk content => valid (validateRuleFile file content allRules)
  | ReadThrows _ => false
  end.

(** A small environment: the rules directory [dir] holds the given
    files, [path.join] puts a [/] between its arguments, and [chalk] adds
    no styling. *)
Fixpoint sampleRead (dir : jsstring) (files : list (jsstring * jsstring))
    (filePath : jsstring) : ReadResult :=
  match files with
  | [] => ReadThrows (lit "ENOENT")
  | (file, content) :: rest =>
      if bool_decide (filePath = dir ++ lit "/" ++ file) then ReadOk content
      else sampleRead dir rest filePath
  end.

Definition sampleEnv (dir : string) (files : list (jsstring * jsstring)) : Env :=
  {| RULES_DIR := lit dir;
     existsSync := λ p, bool_decide (p = lit dir);
     globSync := λ cwd, if bool_decide (cwd = lit dir) then files.*1 else [];
     readFileSync := sampleRead (lit dir) files;
     pathJoin := λ d file, d ++ lit "/" ++ file;
     chalk := λ _ s, s |}.

(** Every [\n] of the text follows a [\r]: the text has [\r\n] line
    ends.  [prev] is the code unit before [s]. *)
Fixpoint crlfFrom (prev : N) (s : jsstring) : bool :=
  match s with
  | [] => true
  | c :: t => (if (c =? NL)%N then (prev =? 13)%N else true) && crlfFrom c t
  end.

Definition crlfLines (s : jsstring) : bool := crlfFrom 0 s.

(** [\n] is the only line terminator of the text. *)
Definition unixLines (s : jsstring) : Prop :=
  Forall (λ c, isLineTerminator c = true → c = NL) s.

(** ** The matcher: what a successful run has matched *)

(** [Matches r s c s1 c1]: [r] matches a prefix of [s], leaving [s1], and
    turns the captures [c] into [c1]. *)
Inductive Matches : regex → jsstring → captures → jsstring → captures → Prop :=
| M_Eps s c : Matches Eps s c s c
| M_Chr x t c : Matches (Chr x) (x :: t) c t c
| M_Cls (p : N → bool) x t c : p x = true → Matches (Cls p) (x :: t) c t c
| M_Eos c : Matches Eos [] c [] c
| M_Seq r1 r2 s c s1 c1 s2 c2 :
    Matches r1 s c s1 c1 → Matches r2 s1 c1 s2 c2 → Matches (Seq r1 r2) s c s2 c2
| M_AltL r1 r2 s c s1 c1 : Matches r1 s c s1 c1 → Matches (Alt r1 r2) s c s1 c1
| M_AltR r1 r2 s c s1 c1 : Matches r2 s c s1 c1 → Matches (Alt r1 r2) s c s1 c1
| M_Star0 r s c : Matches (Star r) s c s c
| M_StarS r s c s1 c1 s2 c2 :
    Matches r s c s1 c1 → length s1 < length s →
    Matches (Star r) s1 c1 s2 c2 → Matches (Star r) s c s2 c2
| M_Grp i r s c s1 c1 :
    Matches r s c s1 c1 →
    Matches (Grp i r) s c s1 (<[i := take (length s - length s1) s]> c1).

Section matcher.
Context {R : Type}.
Implicit Types (k : jsstring → captures → option R).

Lemma star_iter_sound r k n s c x :
  (∀ s c k x, run r s c k = Some x →
     ∃ s1 c1, Matches r s c s1 c1 ∧ k s1 c1 = Some x) →
  star_iter (run r) k n s c = Some x →
  ∃ s1 c1, Matches (Star r) s c s1 c1 ∧ k s1 c1 = Some x.
Proof.
  intros IHr. revert s c. induction n as [|n IHn]; intros s c; simpl.
  - intros Hk. exists s, c. split; [constructor|done].
  - destruct (run r s c _) as [y|] eqn:E.
    + intros [= ->]. apply IHr in E as (s1 & c1 & HM & Hk).
      destruct (length s1 <? length s) eqn:Hlt; [|done].
      apply Nat.ltb_lt in Hlt.
      apply IHn in Hk as (s2 & c2 & HM2 & Hk2).
      exists s2, c2. split; [|done]. by eapply M_StarS.
    + intros Hk. exists s, c. split; [constructor|done].
Qed.

(** Soundness of the matcher. *)
Lemma run_sound r s c k x :
  run r s c k = Some x → ∃ s1 c1, Matches r s c s1 c1 ∧ k s1 c1 = Some x.
Proof.
  revert s c k x.
  induction r as [| ch | p | | r1 IH1 r2 IH2 | r1 IH1 r2 IH2 | r IH | i r IH];
    intros s c k x; simpl.
  - intros Hk. exists s, c. split; [constructor|done].
  - destruct s as [|y t]; [done|]. destruct (N.eqb_spec y ch) as [->|]; [|done].
    intros Hk. exists t, c. split; [constructor|done].
  - destruct s as [|y t]; [done|]. destruct (p y) eqn:Hp; [|done].
    intros Hk. exists t, c. split; [by constructor|done].
  - destruct s as [|y t]; [|done].
    intros Hk. exists [], c. split; [constructor|done].
  - intros H. apply IH1 in H as (s1 & c1 & HM1 & H).
    apply IH2 in H as (s2 & c2 & HM2 & H).
    exists s2, c2. split; [by eapply M_Seq|done].
  - destruct (run r1 s c k) as [y|] eqn:E.
    + intros [= ->]. apply IH1 in E as (s1 & c1 & HM & Hk).
      exists s1, c1. split; [by apply M_AltL|done].
    + intros H. apply IH2 in H as (s1 & c1 & HM & Hk).
      exists s1, c1. split; [by apply M_AltR|done].
  - by apply star_iter_sound.
  - intros H. apply IH in H as (s1 & c1 & HM & Hk).
    eexists s1, _. split; [by apply M_Grp|done].
Qed.

(** A continuation that always fails makes the run fail. *)
Lemma run_fail r s c k : (∀ s1 c1, k s1 c1 = None) → run r s c k = None.
Proof.
  revert s c k.
  induction r as [| ch | p | | r1 IH1 r2 IH2 | r1 IH1 r2 IH2 | r IH | i r IH];
    intros s c k Hk; simpl.
  - done.
  - destruct s; [done|]. by destruct (_ =? _)%N.
  - destruct s; [done|]. by destruct (p _).
  - by destruct s.
  - apply IH1. intros s1 c1. by apply IH2.
  - by rewrite IH1, IH2.
  - generalize (length s) at 1. intros n. revert s c.
    induction n as [|n IHn]; intros s c; simpl; [done|].
    rewrite IH; [done|]. intros s1 c1. destruct (_ <? _); auto.
  - apply IH. intros s1 c1. apply Hk.
Qed.

(** The run depends on the continuation only through its results. *)
Lemma run_ext r s c k k' :
  (∀ s1 c1, k s1 c1 = k' s1 c1) → run r s c k = run r s c k'.
Proof.
  revert s c k k'.
  induction r as [| ch | p | | r1 IH1 r2 IH2 | r1 IH1 r2 IH2 | r IH | i r IH];
    intros s c k k' Hk; simpl.
  - done.
  - destruct s; [done|]. by destruct (_ =? _)%N.
  - destruct s; [done|]. by destruct (p _).
  - by destruct s.
  - apply IH1. intros s1 c1. by apply IH2.
  - by rewrite (IH1 _ _ k k'), (IH2 _ _ k k').
  - generalize (length s). intros n. revert s c.
    induction n as [|n IHn]; intros s c; simpl; [by rewrite Hk|].
    rewrite (IH _ _ _ (λ s1 c1, if length s1 <? length s
                                 then star_iter (run r) k' n s1 c1 else None)).
    + by rewrite Hk.
    + intros s1 c1. destruct (_ <? _); auto.
  - apply IH. intros s1 c1. apply Hk.
Qed.

(** [length s] iterations are as good as any larger number. *)
Lemma star_iter_fuel r k n s c :
  length s ≤ n →
  star_iter (run r) k n s c = star_iter (run r) k (length s) s c.
Proof.
  revert s c. induction n as [n IHn] using lt_wf_ind. intros s c Hn.
  destruct n as [|n].
  { by replace (length s) with 0 by lia. }
  destruct (length s) as [|m] eqn:Hs.
  - simpl. rewrite run_fail; [done|].
    intros s1 c1. rewrite Hs. by destruct (length s1).
  - simpl. erewrite run_ext; [reflexivity|].
    intros s1 c1. simpl. rewrite Hs. destruct (length s1 <? S m) eqn:Hlt; [|done].
    apply Nat.ltb_lt in Hlt.
    rewrite (IHn n) by lia. rewrite (IHn m) by lia. done.
Qed.

(** The unfolding of a star: one more iteration that consumes input, or
    else what follows. *)
Lemma run_Star r s c k :
  run (Star r) s c k
  = match run r s c (λ s1 c1, if length s1 <? length s
                              then run (Star r) s1 c1 k else None) with
    | Some x => Some x
    | None => k s c
    end.
Proof.
  simpl. destruct (length s) as [|m] eqn:Hs.
  - simpl. rewrite run_fail; [done|]. intros s1 c1. by destruct (length s1).
  - simpl. erewrite run_ext; [reflexivity|].
    intros s1 c1. simpl. rewrite Hs. destruct (length s1 <? S m) eqn:Hlt; [|done].
    apply Nat.ltb_lt in Hlt. apply star_iter_fuel. lia.
Qed.

End matcher.

(** ** The array of errors *)

Lemma foldl_push {A} (P : A → bool) (f : A → jsstring) (l : list A) (acc : list jsstring) :
  foldl (λ errors x, if negb (P x) then errors ++ [f x] else errors) acc l
  = acc ++ (f <$> filter (λ x, P x = false) l).
Proof.
  revert acc. induction l as [|x l IH]; intros acc; simpl.
  - by rewrite app_nil_r.
  - rewrite IH, filter_cons. case_decide as HP; rewrite HP || rewrite (not_false_is_true _ HP); simpl.
    + by rewrite <- app_assoc.
    + done.
Qed.

(** The array of errors is the concatenation of what the six checks
    push, in the order of the source. *)
Lemma errors_eq filename content allRules :
  errors (validateRuleFile filename content allRules)
  = headerErrors content ++ closingErrors content
      ++ keyErrors (frontmatterOf content) ++ globsErrors (frontmatterOf content)
      ++ referenceErrors content allRules ++ bodyErrors content.
Proof.
  unfold validateRuleFile, headerErrors, closingErrors, keyErrors, globsErrors,
    referenceErrors, bodyErrors.
  cbn [errors].
  rewrite (foldl_push (λ t, bool_decide (is_Some (allRules !! t))) DanglingReference).
  rewrite (foldl_push (λ section, includes (frontmatterOf content) (section ++ lit ":"))
             MissingRequiredKey).
  assert (Hf : filter (λ t, bool_decide (is_Some (allRules !! t)) = false) (referencesOf content)
              = filter (λ t, allRules !! t = None) (referencesOf content)).
  { apply list_filter_iff. intros t. rewrite bool_decide_eq_false.
    rewrite <- eq_None_not_Some. done. }
  rewrite Hf.
  destruct (startsWith content (lit "---")), (includes content DELIM),
    (matchFirst globsRegex (frontmatterOf content)) as [m|],
    (includes (mainContentOf content) (lit "#")); simpl;
    try destruct (bool_decide _); simpl;
    rewrite ?app_nil_r, <- ?app_assoc; simpl; reflexivity.
Qed.

Lemma valid_iff filename content allRules :
  valid (validateRuleFile filename content allRules) = true
  ↔ errors (validateRuleFile filename content allRules) = [].
Proof.
  unfold validateRuleFile. cbn [valid errors].
  rewrite bool_decide_eq_true. apply length_zero_iff_nil.
Qed.

(** ** Facts about the string methods *)

Lemma startsWith_true (s p : jsstring) :
  startsWith s p = true ↔ ∃ t, s = p ++ t.
Proof.
  revert s. induction p as [|c p IH]; intros s; simpl.
  - split; [intros _; by exists s|done].
  - destruct s as [|x s].
    + split; [done|]. intros [t Ht]. discriminate.
    + rewrite andb_true_iff, N.eqb_eq, IH. split.
      * intros [-> [t ->]]. eauto.
      * intros [t Ht]. injection Ht as -> ->. eauto.
Qed.

Lemma startsWith_app (p t : jsstring) : startsWith (p ++ t) p = true.
Proof. apply startsWith_true. eauto. Qed.

Lemma find_Some (s p : jsstring) (i : nat) :
  find s p = Some i →
  s = take i s ++ p ++ drop (i + length p) s
  ∧ ∀ j, j < i → startsWith (drop j s) p = false.
Proof.
  revert i. induction s as [|x s IH]; intros i; simpl.
  - destruct (startsWith [] p) eqn:E; [|done].
    intros [= <-]. apply startsWith_true in E as [t Ht].
    split; [|lia]. simpl. symmetry in Ht. apply app_eq_nil in Ht as [-> ->]. done.
  - destruct (startsWith (x :: s) p) eqn:E.
    + intros [= <-]. split; [|lia].
      apply startsWith_true in E as [t Ht]. rewrite Ht at 1. simpl.
      f_equal. rewrite Ht. by rewrite drop_app_length.
    + destruct (find s p) as [i'|] eqn:F; [|done].
      intros [= <-]. destruct (IH i' eq_refl) as [H1 H2]. split.
      * simpl. by rewrite <- H1.
      * intros [|j] Hj; simpl; [done|]. apply H2. lia.
Qed.

Lemma find_None (s p : jsstring) :
  find s p = None → ∀ a b, s ≠ a ++ p ++ b.
Proof.
  induction s as [|x s IH]; simpl.
  - destruct (startsWith [] p) eqn:E; [done|]. intros _ a b Hab.
    symmetry in Hab. apply app_eq_nil in Hab as [-> Hab].
    apply app_eq_nil in Hab as [-> _]. done.
  - destruct (startsWith (x :: s) p) eqn:E; [done|].
    destruct (find s p) eqn:F; [done|]. intros _ [|y a] b Hab; simpl in Hab.
    + rewrite Hab, startsWith_app in E. done.
    + injection Hab as -> Hab. by eapply IH.
Qed.

Lemma find_is_Some (s p : jsstring) :
  is_Some (find s p) ↔ ∃ a b, s = a ++ p ++ b.
Proof.
  split.
  - intros [i Hi]. apply find_Some in Hi as [Hi _]. eauto.
  - intros (a & b & Hab). destruct (find s p) eqn:F; [eauto|].
    by apply find_None with (a := a) (b := b) in F.
Qed.

Lemma indexOf_0 (s p : jsstring) :
  indexOf s p 0 = match find s p with Some i => Z.of_nat i | None => (-1)%Z end.
Proof.
  unfold indexOf.
  replace (Z.to_nat (0 `max` (0 `min` Z.of_nat (length s)))) with 0 by lia.
  rewrite drop_0. by destruct (find s p).
Qed.

Lemma includes_find (s p : jsstring) :
  includes s p = true ↔ is_Some (find s p).
Proof.
  unfold includes. rewrite bool_decide_eq_true, indexOf_0.
  destruct (find s p) as [i|].
  - split; [eauto | lia].
  - split; [done | intros [? [=]]].
Qed.

Lemma includes_true (s p : jsstring) :
  includes s p = true ↔ ∃ a b, s = a ++ p ++ b.
Proof. by rewrite includes_find, find_is_Some. Qed.

(** ** The six messages are pairwise distinct *)

Ltac lits := cbv [MissingHeaderBlock UnterminatedHeaderBlock MissingRequiredKey
  EmptyRequiredValue DanglingReference EmptyBodyContent]; simpl.

Lemma DanglingReference_inj t u : DanglingReference t = DanglingReference u → t = u.
Proof. unfold DanglingReference. apply app_inv_head. Qed.

Lemma MissingRequiredKey_inj t u : MissingRequiredKey t = MissingRequiredKey u → t = u.
Proof. unfold MissingRequiredKey. apply app_inv_head. Qed.

Lemma messages_distinct (s t : jsstring) :
  MissingHeaderBlock ≠ UnterminatedHeaderBlock
  ∧ MissingHeaderBlock ≠ MissingRequiredKey s
  ∧ MissingHeaderBlock ≠ EmptyRequiredValue
  ∧ MissingHeaderBlock ≠ DanglingReference t
  ∧ MissingHeaderBlock ≠ EmptyBodyContent
  ∧ UnterminatedHeaderBlock ≠ MissingRequiredKey s
  ∧ UnterminatedHeaderBlock ≠ EmptyRequiredValue
  ∧ UnterminatedHeaderBlock ≠ DanglingReference t
  ∧ UnterminatedHeaderBlock ≠ EmptyBodyContent
  ∧ MissingRequiredKey s ≠ EmptyRequiredValue
  ∧ MissingRequiredKey s ≠ DanglingReference t
  ∧ MissingRequiredKey s ≠ EmptyBodyContent
  ∧ EmptyRequiredValue ≠ DanglingReference t
  ∧ EmptyRequiredValue ≠ EmptyBodyContent
  ∧ DanglingReference t ≠ EmptyBodyContent.
Proof. lits. repeat split; discriminate. Qed.

(** ** Which check a diagnostic comes from *)

Lemma headerErrors_elem content e :
  e ∈ headerErrors content
  ↔ e = MissingHeaderBlock ∧ startsWith content (lit "---") = false.
Proof.
  unfold headerErrors. destruct (startsWith _ _).
  - rewrite elem_of_nil. split; [done | by intros [_ ?]].
  - rewrite list_elem_of_singleton. split; [by intros -> | by intros [-> _]].
Qed.

Lemma closingErrors_elem content e :
  e ∈ closingErrors content
  ↔ e = UnterminatedHeaderBlock ∧ includes content DELIM = false.
Proof.
  unfold closingErrors. destruct (includes _ _).
  - rewrite elem_of_nil. split; [done | by intros [_ ?]].
  - rewrite list_elem_of_singleton. split; [by intros -> | by intros [-> _]].
Qed.

Lemma keyErrors_elem frontmatter e :
  e ∈ keyErrors frontmatter
  ↔ ∃ section, e = MissingRequiredKey section ∧ section ∈ REQUIRED_SECTIONS
               ∧ includes frontmatter (section ++ lit ":") = false.
Proof.
  unfold keyErrors. rewrite list_elem_of_fmap. split.
  - intros (section & -> & [? ?]%list_elem_of_filter). eauto.
  - intros (section & -> & ? & ?). exists section. split; [done|].
    by apply list_elem_of_filter.
Qed.

Lemma globsErrors_elem frontmatter e :
  e ∈ globsErrors frontmatter → e = EmptyRequiredValue.
Proof.
  unfold globsErrors. destruct (matchFirst _ _); [|by intros ?%elem_of_nil].
  destruct (bool_decide _); [|by intros ?%elem_of_nil].
  by intros ->%list_elem_of_singleton.
Qed.

Lemma referenceErrors_elem content allRules e :
  e ∈ referenceErrors content allRules
  ↔ ∃ t, e = DanglingReference t ∧ t ∈ referencesOf content ∧ allRules !! t = None.
Proof.
  unfold referenceErrors. rewrite list_elem_of_fmap. split.
  - intros (t & -> & [? ?]%list_elem_of_filter). eauto.
  - intros (t & -> & ? & ?). exists t. split; [done|].
    by apply list_elem_of_filter.
Qed.

Lemma bodyErrors_elem content e :
  e ∈ bodyErrors content
  ↔ e = EmptyBodyContent ∧ includes (mainContentOf content) (lit "#") = false.
Proof.
  unfold bodyErrors. destruct (includes _ _).
  - rewrite elem_of_nil. split; [done | by intros [_ ?]].
  - rewrite list_elem_of_singleton. split; [by intros -> | by intros [-> _]].
Qed.

Lemma errors_elem filename content allRules e :
  e ∈ errors (validateRuleFile filename content allRules)
  ↔ e ∈ headerErrors content ∨ e ∈ closingErrors content
    ∨ e ∈ keyErrors (frontmatterOf content) ∨ e ∈ globsErrors (frontmatterOf content)
    ∨ e ∈ referenceErrors content allRules ∨ e ∈ bodyErrors content.
Proof. rewrite errors_eq, !elem_of_app. tauto. Qed.

(** An equation between two different messages. *)
Ltac wrong_message E := exfalso; revert E; lits; discriminate.

Lemma MissingRequiredKey_elem filename content allRules section :
  MissingRequiredKey section ∈ errors (validateRuleFile filename content allRules)
  ↔ section ∈ REQUIRED_SECTIONS
    ∧ includes (frontmatterOf content) (section ++ lit ":") = false.
Proof.
  rewrite errors_elem, headerErrors_elem, closingErrors_elem, keyErrors_elem,
    referenceErrors_elem, bodyErrors_elem.
  split.
  - intros [[E _]|[[E _]|[(s & E & H)|[E%globsErrors_elem|[(t & E & _)|[E _]]]]]];
      try wrong_message E.
    by apply MissingRequiredKey_inj in E as ->.
  - intros H. do 2 right. left. eauto.
Qed.

Lemma DanglingReference_elem filename content allRules t :
  DanglingReference t ∈ errors (validateRuleFile filename content allRules)
  ↔ t ∈ referencesOf content ∧ allRules !! t = None.
Proof.
  rewrite errors_elem, headerErrors_elem, closingErrors_elem, keyErrors_elem,
    referenceErrors_elem, bodyErrors_elem.
  split.
  - intros [[E _]|[[E _]|[(s & E & _)|[E%globsErrors_elem|[(u & E & H)|[E _]]]]]];
      try wrong_message E.
    by apply DanglingReference_inj in E as ->.
  - intros H. do 4 right. left. eauto.
Qed.

Lemma EmptyBodyContent_elem filename content allRules :
  EmptyBodyContent ∈ errors (validateRuleFile filename content allRules)
  ↔ includes (mainContentOf content) (lit "#") = false.
Proof.
  rewrite errors_elem, headerErrors_elem, closingErrors_elem, keyErrors_elem,
    referenceErrors_elem, bodyErrors_elem.
  split.
  - intros [[E _]|[[E _]|[(s & E & _)|[E%globsErrors_elem|[(u & E & _)|[_ H]]]]]];
      try wrong_message E.
    done.
  - intros H. do 5 right. done.
Qed.

(** ** The reference pattern *)

(** From here on the literals stay folded; they are computed where their
    code units matter. *)
Opaque lit chr.

Lemma lit_mdc : lit ".mdc" = [46; 109; 100; 99]%N.
Proof. by vm_compute. Qed.

Lemma chr_at : chr "@" = 64%N.
Proof. by vm_compute. Qed.

Ltac invert H := inversion H; subst; clear H.

(** Inversion of [Matches], one lemma per constructor of [regex]. *)
Lemma Matches_Eps s c s1 c1 : Matches Eps s c s1 c1 → s1 = s ∧ c1 = c.
Proof. intros H. by invert H. Qed.

Lemma Matches_Chr x s c s1 c1 : Matches (Chr x) s c s1 c1 → s = x :: s1 ∧ c1 = c.
Proof. intros H. by invert H. Qed.

Lemma Matches_Cls p s c s1 c1 :
  Matches (Cls p) s c s1 c1 → ∃ x, s = x :: s1 ∧ p x = true ∧ c1 = c.
Proof. intros H. invert H. eauto. Qed.

Lemma Matches_Eos s c s1 c1 : Matches Eos s c s1 c1 → s = [] ∧ s1 = [] ∧ c1 = c.
Proof. intros H. by invert H. Qed.

Lemma Matches_Seq r1 r2 s c s2 c2 :
  Matches (Seq r1 r2) s c s2 c2 →
  ∃ s1 c1, Matches r1 s c s1 c1 ∧ Matches r2 s1 c1 s2 c2.
Proof. intros H. invert H. eauto. Qed.

Lemma Matches_Alt r1 r2 s c s1 c1 :
  Matches (Alt r1 r2) s c s1 c1 → Matches r1 s c s1 c1 ∨ Matches r2 s c s1 c1.
Proof. intros H. invert H; eauto. Qed.

Lemma Matches_Grp i r s c s1 c1 :
  Matches (Grp i r) s c s1 c1 →
  ∃ c0, Matches r s c s1 c0 ∧ c1 = <[i := take (length s - length s1) s]> c0.
Proof. intros H. invert H. eauto. Qed.

Lemma Matches_Str cs s c s1 c1 :
  Matches (Str cs) s c s1 c1 → s = cs ++ s1 ∧ c1 = c.
Proof.
  revert s c. induction cs as [|x cs IH]; intros s c H; simpl in H.
  - by apply Matches_Eps in H as [-> ->].
  - apply Matches_Seq in H as (s0 & c0 & H1 & H2).
    apply Matches_Chr in H1 as [-> ->]. apply IH in H2 as [-> ->]. done.
Qed.

Lemma Matches_Star_Cls p s c s1 c1 :
  Matches (Star (Cls p)) s c s1 c1 →
  ∃ w, s = w ++ s1 ∧ Forall (λ x, p x = true) w ∧ c1 = c.
Proof.
  remember (Star (Cls p)) as r eqn:Hr. intros H.
  induction H as [| | | | | | | r s c | r s c s1 c1 s2 c2 H1 _ Hlt H2 IH2 |];
    try discriminate.
  - by exists [].
  - injection Hr as ->. apply Matches_Cls in H1 as (x & -> & Hx & ->).
    destruct (IH2 eq_refl) as (w & -> & Hw & ->).
    exists (x :: w). split; [done|]. split; [by constructor|done].
Qed.

Lemma Matches_Plus_Cls p s c s1 c1 :
  Matches (Plus (Cls p)) s c s1 c1 →
  ∃ w, s = w ++ s1 ∧ w ≠ [] ∧ Forall (λ x, p x = true) w ∧ c1 = c.
Proof.
  intros H. apply Matches_Seq in H as (s0 & c0 & H1 & H2).
  apply Matches_Cls in H1 as (x & -> & Hx & ->).
  apply Matches_Star_Cls in H2 as (w & -> & Hw & ->).
  exists (x :: w). split; [done|]. split; [done|]. split; [by constructor|done].
Qed.

Lemma take_app_minus {A} (l r : list A) :
  take (length (l ++ r) - length r) (l ++ r) = l.
Proof.
  rewrite length_app. replace (length l + length r - length r) with (length l) by lia.
  by rewrite take_app_length.
Qed.

(** Whatever the pattern matches is an [@], a non-empty run of [[\w-]]
    and [.mdc]. *)
Lemma matchAt_ref_shape s m :
  matchAt refRegex s = Some m →
  ∃ w rest, s = chr "@" :: w ++ lit ".mdc" ++ rest
            ∧ w ≠ [] ∧ Forall (λ x, isRefChar x = true) w
            ∧ whole m = chr "@" :: w ++ lit ".mdc".
Proof.
  unfold matchAt, refRegex. intros H.
  apply run_sound in H as (s1 & c1 & HM & Hm). injection Hm as <-.
  apply Matches_Seq in HM as (s0 & c0 & H1 & HM).
  apply Matches_Chr in H1 as [-> ->].
  apply Matches_Seq in HM as (s2 & c2 & H2 & H3).
  apply Matches_Plus_Cls in H2 as (w & -> & Hne & Hw & ->).
  apply Matches_Str in H3 as [-> ->].
  exists w, s1. split; [done|]. split; [done|]. split; [done|].
  cbn [whole].
  change (chr "@" :: w ++ lit ".mdc" ++ s1) with ((chr "@" :: w) ++ lit ".mdc" ++ s1).
  rewrite app_assoc, take_app_minus. done.
Qed.

(** The equations of [run] that the evaluations below rewrite with. *)
Lemma run_Seq {R} r1 r2 s c (k : jsstring → captures → option R) :
  run (Seq r1 r2) s c k = run r1 s c (λ s1 c1, run r2 s1 c1 k).
Proof. reflexivity. Qed.

Lemma run_Chr_cons {R} ch x t c (k : jsstring → captures → option R) :
  run (Chr ch) (x :: t) c k = if (x =? ch)%N then k t c else None.
Proof. reflexivity. Qed.

Lemma run_Cls_cons {R} p x t c (k : jsstring → captures → option R) :
  run (Cls p) (x :: t) c k = if p x then k t c else None.
Proof. reflexivity. Qed.

Lemma run_Cls_nil {R} p c (k : jsstring → captures → option R) :
  run (Cls p) [] c k = None.
Proof. reflexivity. Qed.

Lemma run_Str_app {R} cs s c (k : jsstring → captures → option R) :
  run (Str cs) (cs ++ s) c k = k s c.
Proof.
  induction cs as [|x cs IH]; [done|].
  change (Str (x :: cs)) with (Seq (Chr x) (Str cs)).
  rewrite run_Seq. change ((x :: cs) ++ s) with (x :: cs ++ s).
  rewrite run_Chr_cons, N.eqb_refl. apply IH.
Qed.

(** A greedy star over a class runs to the end of the run of the class
    when what follows accepts there. *)
Lemma run_Star_Cls_greedy {R} p (w s : jsstring) c (k : jsstring → captures → option R) x :
  Forall (λ y, p y = true) w →
  (∀ y t, s = y :: t → p y = false) →
  k s c = Some x →
  run (Star (Cls p)) (w ++ s) c k = Some x.
Proof.
  intros Hw Hs Hk. induction Hw as [|a w Ha Hw IH]; rewrite run_Star.
  - destruct s as [|y t]; [by rewrite run_Cls_nil|].
    by rewrite app_nil_l, run_Cls_cons, (Hs y t eq_refl).
  - change ((a :: w) ++ s) with (a :: w ++ s). rewrite run_Cls_cons, Ha.
    replace (length (w ++ s) <? length (a :: w ++ s)) with true
      by (symmetry; apply Nat.ltb_lt; simpl; lia).
    by rewrite IH.
Qed.

Lemma matchAt_ref_token (name post : jsstring) :
  name ≠ [] → Forall (λ x, isRefChar x = true) name →
  matchAt refRegex (chr "@" :: name ++ lit ".mdc" ++ post)
  = Some {| whole := chr "@" :: name ++ lit ".mdc"; groups := ∅ |}.
Proof.
  intros Hne Hname. destruct Hname as [|a name Ha Hname]; [done|].
  unfold matchAt, refRegex, Plus.
  rewrite run_Seq, run_Chr_cons, N.eqb_refl, !run_Seq.
  change ((a :: name) ++ lit ".mdc" ++ post) with (a :: name ++ lit ".mdc" ++ post).
  rewrite run_Cls_cons, Ha.
  erewrite run_Star_Cls_greedy; [reflexivity|done| |].
  - rewrite lit_mdc. intros y t [= <- _]. by vm_compute.
  - rewrite run_Str_app. do 2 f_equal.
    change (chr "@" :: a :: name ++ lit ".mdc" ++ post)
      with ((chr "@" :: a :: name) ++ lit ".mdc" ++ post).
    rewrite app_assoc. rewrite take_app_minus. done.
Qed.

(** ** The scan for references *)

Lemma matchAllFrom_elem r skip s w :
  w ∈ matchAllFrom r skip s → ∃ s' m, matchAt r s' = Some m ∧ whole m = w.
Proof.
  revert skip. induction s as [|x s IH]; intros skip; destruct skip as [|k]; simpl.
  - destruct (matchAt r []) as [m|] eqn:E.
    + intros ->%list_elem_of_singleton. eauto.
    + by intros ?%elem_of_nil.
  - by intros ?%elem_of_nil.
  - destruct (matchAt r (x :: s)) as [m|] eqn:E.
    + intros [->|H]%elem_of_cons; eauto.
    + eauto.
  - eauto.
Qed.

Lemma substringFrom_cons (c : N) (l : jsstring) : substringFrom (c :: l) 1 = l.
Proof.
  unfold substringFrom, substring. cbn [length].
  set (n := Z.of_nat (S (length l))).
  assert (Hn : n = (Z.of_nat (length l) + 1)%Z) by lia.
  replace (0 `max` (1 `min` n))%Z with 1%Z by lia.
  replace (0 `max` (n `min` n))%Z with n by lia.
  replace (Z.to_nat (1 `min` n)) with 1 by lia.
  replace (Z.to_nat (1 `max` n - 1 `min` n)) with (length l) by lia.
  simpl. by rewrite take_ge.
Qed.

(** Every reference the script looks up is a non-empty run of [[\w-]]
    followed by [.mdc]. *)
Lemma referencesOf_shape content t :
  t ∈ referencesOf content →
  ∃ w, t = w ++ lit ".mdc" ∧ w ≠ [] ∧ Forall (λ x, isRefChar x = true) w.
Proof.
  unfold referencesOf, matchAll.
  intros (ref & -> & Href)%list_elem_of_fmap.
  apply matchAllFrom_elem in Href as (s' & m & Hm & <-).
  apply matchAt_ref_shape in Hm as (w & rest & _ & Hne & Hw & ->).
  exists w. by rewrite substringFrom_cons.
Qed.

Lemma app_eq_not_in {A} (a : A) (l1 r1 l2 r2 : list A) :
  l1 ++ r1 = l2 ++ a :: r2 → a ∉ l1 → length l1 ≤ length l2.
Proof.
  revert l1. induction l2 as [|y l2 IH]; intros [|x l1]; simpl; try lia.
  - intros [= -> _] Hx. exfalso. apply Hx. by left.
  - intros [= -> H] Hx. apply IH in H; [lia|].
    intros Ha. apply Hx. by right.
Qed.

Lemma ref_chars_not_at (w : jsstring) :
  Forall (λ x, isRefChar x = true) w → chr "@" ∉ w ++ lit ".mdc".
Proof.
  intros Hw [H|H]%elem_of_app.
  - rewrite Forall_forall in Hw. apply Hw in H. rewrite chr_at in H. discriminate.
  - apply list_elem_of_In in H. vm_compute in H. intuition discriminate.
Qed.

(** A reference token is found wherever it stands in the text. *)
Lemma matchAllFrom_token (pre name post : jsstring) (skip : nat) :
  name ≠ [] → Forall (λ x, isRefChar x = true) name →
  skip ≤ length pre →
  chr "@" :: name ++ lit ".mdc"
    ∈ matchAllFrom refRegex skip (pre ++ chr "@" :: name ++ lit ".mdc" ++ post).
Proof.
  intros Hne Hname. revert skip.
  induction pre as [|x pre IH]; intros skip Hskip.
  - replace skip with 0 by (simpl in Hskip; lia).
    rewrite app_nil_l. cbn [matchAllFrom].
    rewrite matchAt_ref_token by done. cbn [whole]. by left.
  - destruct skip as [|k].
    + change ((x :: pre) ++ ?l) with (x :: pre ++ l). cbn [matchAllFrom].
      destruct (matchAt refRegex _) as [m|] eqn:E.
      * right. apply IH.
        apply matchAt_ref_shape in E as (w & rest & Hs & _ & Hw & ->).
        injection Hs as -> Hs. symmetry in Hs. rewrite (app_assoc w) in Hs.
        apply app_eq_not_in in Hs; [|by apply ref_chars_not_at].
        cbn [length pred]. done.
      * apply IH. lia.
    + simpl. apply IH. simpl in Hskip. lia.
Qed.

Lemma referencesOf_token (pre name post : jsstring) :
  name ≠ [] → Forall (λ x, isRefChar x = true) name →
  name ++ lit ".mdc" ∈ referencesOf (pre ++ chr "@" :: name ++ lit ".mdc" ++ post).
Proof.
  intros Hne Hname. unfold referencesOf, matchAll.
  apply list_elem_of_fmap. exists (chr "@" :: name ++ lit ".mdc").
  split; [by rewrite substringFrom_cons|].
  apply matchAllFrom_token; [done|done|lia].
Qed.

(** ** A document without the opening delimiter (C3) *)

Lemma frontmatterOf_no_opening content :
  startsWith content (lit "---") = false → frontmatterOf content = [].
Proof. unfold frontmatterOf. by intros ->. Qed.

(** C3, as stated, fails: the text [# Title] does not begin with the
    opening delimiter, and the validator reports five diagnostics for it,
    not the single MissingHeaderBlock. *)
Lemma no_opening_delimiter_counterexample :
  startsWith (lit "# Title") (lit "---") = false
  ∧ errors (validateRuleFile (lit "a.mdc") (lit "# Title") ∅)
    = [MissingHeaderBlock; UnterminatedHeaderBlock;
       MissingRequiredKey (lit "Description"); MissingRequiredKey (lit "Globs");
       EmptyBodyContent]
  ∧ errors (validateRuleFile (lit "a.mdc") (lit "# Title") ∅) ≠ [MissingHeaderBlock].
Proof. split; [by vm_compute|]. split; [by vm_compute|]. by vm_compute. Qed.

(** C3, amended: for every document whose text does not begin with the
    opening delimiter marker, the diagnostics start with the
    MissingHeaderBlock diagnostic, which occurs exactly once, and the
    other checks still run, on an empty header block: both required keys
    are reported missing, and the closing-delimiter, reference and
    body-content checks push what they push for any document. *)
Theorem no_opening_delimiter_errors filename content allRules :
  startsWith content (lit "---") = false →
  let rest :=
    closingErrors content
      ++ [MissingRequiredKey (lit "Description"); MissingRequiredKey (lit "Globs")]
      ++ referenceErrors content allRules ++ bodyErrors content in
  errors (validateRuleFile filename content allRules) = MissingHeaderBlock :: rest
  ∧ MissingHeaderBlock ∉ rest.
Proof.
  intros Hs rest. split.
  - rewrite errors_eq, (frontmatterOf_no_opening _ Hs).
    unfold headerErrors. rewrite Hs. reflexivity.
  - unfold rest. rewrite !elem_of_app, closingErrors_elem, referenceErrors_elem,
      bodyErrors_elem, !elem_of_cons, elem_of_nil.
    destruct (messages_distinct (lit "Description") []) as (D1 & D2 & _ & _ & D5 & _).
    destruct (messages_distinct (lit "Globs") []) as (_ & D2' & _).
    intros [[H _]|[[H|[H|[]]]|[(t & H & _)|[H _]]]]; try done.
Qed.

Lemma no_opening_delimiter_errors_witness :
  let rest :=
    closingErrors (lit "# Title")
      ++ [MissingRequiredKey (lit "Description"); MissingRequiredKey (lit "Globs")]
      ++ referenceErrors (lit "# Title") ∅ ++ bodyErrors (lit "# Title") in
  errors (validateRuleFile (lit "a.mdc") (lit "# Title") ∅) = MissingHeaderBlock :: rest
  ∧ MissingHeaderBlock ∉ rest.
Proof.
  apply (no_opening_delimiter_errors (lit "a.mdc") (lit "# Title") ∅).
  by vm_compute.
Defined.

(** ** References are taken from the whole text (C6) *)

(** C6, as stated, fails: in this document the token [@ghost.mdc] stands
    in the header block only, the body has no reference token, and the
    validator still reports the reference as dangling. *)
Lemma header_reference_counterexample :
  let content :=
    text ["---"; "Description: see @ghost.mdc"; "Globs: *.ts"; "---"; "# Title"] in
  mainContentOf content = lit "# Title"
  ∧ matchAll refRegex (lit "# Title") = []
  ∧ errors (validateRuleFile (lit "a.mdc") content ∅)
    = [DanglingReference (lit "ghost.mdc")].
Proof. split; [by vm_compute|]. split; by vm_compute. Qed.

(** C6, amended: reference tokens are extracted from the whole raw text
    of a document, header block included: wherever a token [@name.mdc]
    stands in the text, it produces a DanglingReference diagnostic when
    its target is not in the known document set. *)
Theorem reference_anywhere_is_checked filename pre name post allRules :
  name ≠ [] → Forall (λ x, isRefChar x = true) name →
  allRules !! (name ++ lit ".mdc") = None →
  DanglingReference (name ++ lit ".mdc")
    ∈ errors (validateRuleFile filename
                (pre ++ chr "@" :: name ++ lit ".mdc" ++ post) allRules).
Proof.
  intros Hne Hname Hnone. apply DanglingReference_elem.
  split; [by apply referencesOf_token|done].
Qed.

Lemma reference_anywhere_is_checked_witness :
  DanglingReference (lit "ghost" ++ lit ".mdc")
    ∈ errors (validateRuleFile (lit "a.mdc")
                (text ["---"; "Description: see "]
                   ++ chr "@" :: lit "ghost" ++ lit ".mdc"
                   ++ NL :: text ["Globs: *.ts"; "---"; "# Title"]) ∅).
Proof.
  apply (reference_anywhere_is_checked (lit "a.mdc")
           (text ["---"; "Description: see "]) (lit "ghost")
           (NL :: text ["Globs: *.ts"; "---"; "# Title"]) ∅).
  - by vm_compute.
  - by vm_compute; repeat constructor.
  - reflexivity.
Defined.

(** ** Identifiers with a path separator (C10) *)

Lemma ref_word_no_slash (w : jsstring) :
  Forall (λ x, isRefChar x = true) w → chr "/" ∉ w ++ lit ".mdc".
Proof.
  intros Hw [H|H]%elem_of_app.
  - rewrite Forall_forall in Hw. apply Hw in H. by vm_compute in H.
  - apply list_elem_of_In in H. vm_compute in H. intuition discriminate.
Qed.

(** C10: an identifier that contains a path separator is never among the
    references the pattern extracts, so no DanglingReference diagnostic is
    ever produced for it, whatever the known document set; at a token
    [@dir/...] the pattern does not match. *)
Theorem path_separator_reference_skipped filename content allRules t :
  chr "/" ∈ t →
  (t ∉ referencesOf content)
  ∧ (DanglingReference t ∉ errors (validateRuleFile filename content allRules))
  ∧ (∀ dir rest, Forall (λ x, isRefChar x = true) dir →
       matchAt refRegex (chr "@" :: dir ++ chr "/" :: rest) = None).
Proof.
  intros Ht.
  assert (Hn : t ∉ referencesOf content).
  { intros (w & -> & _ & Hw)%referencesOf_shape. by apply ref_word_no_slash in Ht. }
  split; [done|]. split.
  - rewrite DanglingReference_elem. tauto.
  - intros dir rest Hdir.
    destruct (matchAt refRegex _) as [m|] eqn:E; [|done]. exfalso.
    apply matchAt_ref_shape in E as (w & rest' & Hs & _ & Hw & _).
    injection Hs as Hs. clear -Hs Hdir Hw.
    revert w Hs Hw. induction Hdir as [|a dir Ha Hdir IH]; intros w Hs Hw.
    + destruct Hw as [|b w Hb Hw].
      * rewrite lit_mdc in Hs. by vm_compute in Hs.
      * injection Hs as <- _. by vm_compute in Hb.
    + destruct Hw as [|b w Hb Hw].
      * rewrite lit_mdc in Hs. injection Hs as -> _. by vm_compute in Ha.
      * injection Hs as _ Hs. by eapply IH.
Qed.

Lemma path_separator_reference_skipped_witness :
  (lit "dir/file.mdc" ∉ referencesOf (text ["---"; "# T"; "@dir/file.mdc"]))
  ∧ (DanglingReference (lit "dir/file.mdc")
       ∉ errors (validateRuleFile (lit "a.mdc") (text ["---"; "# T"; "@dir/file.mdc"]) ∅))
  ∧ (∀ dir rest, Forall (λ x, isRefChar x = true) dir →
       matchAt refRegex (chr "@" :: dir ++ chr "/" :: rest) = None).
Proof.
  apply (path_separator_reference_skipped (lit "a.mdc")
           (text ["---"; "# T"; "@dir/file.mdc"]) ∅ (lit "dir/file.mdc")).
  apply list_elem_of_In. vm_compute. tauto.
Defined.

(** ** Required keys are looked for as substrings (C9) *)

Lemma trimStart_keeps (a p b : jsstring) (x : N) :
  isSpace x = false →
  ∃ a', trimStart (a ++ (x :: p) ++ b) = a' ++ (x :: p) ++ b.
Proof.
  intros Hx. induction a as [|y a IH]; simpl.
  - rewrite Hx. by exists [].
  - destruct (isSpace y); [done|]. by exists (y :: a).
Qed.

Lemma trimEnd_keeps (a p b : jsstring) (x : N) :
  isSpace x = false →
  ∃ b', trimEnd (a ++ (p ++ [x]) ++ b) = a ++ (p ++ [x]) ++ b'.
Proof.
  intros Hx. unfold trimEnd.
  rewrite !reverse_app. cbn [reverse]. rewrite reverse_singleton.
  destruct (trimStart_keeps (reverse b) (reverse p) (reverse a) x Hx) as [b' Hb].
  rewrite <- app_assoc. cbn [app]. cbn [app] in Hb. rewrite Hb.
  exists (reverse b'). rewrite reverse_app, reverse_cons, reverse_app, !reverse_involutive.
  by rewrite <- !app_assoc.
Qed.

(** Trimming keeps every occurrence of a string that neither begins nor
    ends with white space. *)
Lemma includes_trim (s p : jsstring) (x y : N) :
  isSpace x = false → isSpace y = false →
  includes s (x :: p ++ [y]) = true → includes (trim s) (x :: p ++ [y]) = true.
Proof.
  intros Hx Hy (a & b & ->)%includes_true. apply includes_true. unfold trim.
  destruct (trimStart_keeps a (p ++ [y]) b x Hx) as [a' ->].
  change (x :: p ++ [y]) with ((x :: p) ++ [y]).
  destruct (trimEnd_keeps a' (x :: p) b y Hy) as [b' ->]. eauto.
Qed.

(** The header block of a document that has one: the text between the
    opening delimiter and the first closing delimiter line. *)
Lemma frontmatterOf_block content (i : Z) :
  startsWith content (lit "---") = true →
  indexOf content DELIM 3 = i → i ≠ (-1)%Z →
  frontmatterOf content = trim (substring content 3 i).
Proof.
  intros Hs <- Hi. unfold frontmatterOf. rewrite Hs.
  by rewrite bool_decide_eq_true_2.
Qed.

(** C9: the presence of a required key is a substring check: when the
    header block (the text between the opening delimiter and the first
    closing delimiter line) contains [Description:], or [Globs:],
    anywhere, no MissingRequiredKey diagnostic is emitted for that key. *)
Theorem required_key_is_substring_check filename content allRules (i : Z) section :
  startsWith content (lit "---") = true →
  indexOf content DELIM 3 = i → i ≠ (-1)%Z →
  includes (substring content 3 i) (section ++ lit ":") = true →
  MissingRequiredKey section ∉ errors (validateRuleFile filename content allRules).
Proof.
  intros Hs Hi Hne Hinc. rewrite MissingRequiredKey_elem.
  rewrite (frontmatterOf_block content i Hs Hi Hne).
  intros [Hsec Hfalse]. revert Hinc Hfalse.
  unfold REQUIRED_SECTIONS in Hsec.
  apply elem_of_cons in Hsec as [->|Hsec]; [|apply list_elem_of_singleton in Hsec as ->].
  - change (lit "Description" ++ lit ":") with (68%N :: lit "escription" ++ [58%N]).
    intros H%includes_trim; [congruence|done|done].
  - change (lit "Globs" ++ lit ":") with (71%N :: lit "lobs" ++ [58%N]).
    intros H%includes_trim; [congruence|done|done].
Qed.

(** The witness: no line of this header block starts with [Description];
    the key only occurs inside the value of [Title]. *)
Lemma required_key_is_substring_check_witness :
  MissingRequiredKey (lit "Description")
    ∉ errors (validateRuleFile (lit "a.mdc")
                (text ["---"; "Title: no Description: here"; "Globs: *.ts"; "---"; "# T"]) ∅).
Proof.
  apply (required_key_is_substring_check (lit "a.mdc")
           (text ["---"; "Title: no Description: here"; "Globs: *.ts"; "---"; "# T"])
           ∅ 43%Z (lit "Description")).
  - by vm_compute.
  - by vm_compute.
  - done.
  - by vm_compute.
Defined.

(** ** The body check (C7) *)

Lemma split_steps_fuel (n : nat) (s sep : jsstring) :
  sep ≠ [] → length s ≤ n →
  split_steps n s sep = split_steps (length s) s sep.
Proof.
  intros Hsep. revert s. induction n as [n IH] using lt_wf_ind. intros s Hn.
  destruct n as [|n].
  { by replace (length s) with 0 by lia. }
  destruct s as [|x s].
  { destruct sep; [done|]. reflexivity. }
  cbn [split_steps length]. destruct (find (x :: s) sep) as [i|]; [|done].
  f_equal.
  assert (length (drop (i + length sep) (x :: s)) ≤ length s).
  { rewrite length_drop. destruct sep; [done|]. simpl. lia. }
  cbn [length] in Hn.
  rewrite (IH n) by lia. rewrite (IH (length s)) by lia. done.
Qed.

(** The unfolding of [split]: cut at the first occurrence, go on behind
    it. *)
Lemma split_unfold (s sep : jsstring) :
  sep ≠ [] →
  split s sep = match find s sep with
                | None => [s]
                | Some i => take i s :: split (drop (i + length sep) s) sep
                end.
Proof.
  intros Hsep. unfold split. destruct s as [|x s].
  { destruct sep; [done|]. reflexivity. }
  cbn [length split_steps]. destruct (find (x :: s) sep) as [i|]; [|done].
  f_equal. apply split_steps_fuel; [done|].
  rewrite length_drop. destruct sep; [done|]. simpl. lia.
Qed.

Lemma DELIM_not_nil : DELIM ≠ [].
Proof. done. Qed.

(** What the script takes for the main content: nothing when there is no
    delimiter line; otherwise the text after the first delimiter line, up
    to the next one when there is one. *)
Lemma mainContentOf_eq content :
  mainContentOf content
  = match find content DELIM with
    | None => []
    | Some i =>
        let body := drop (i + length DELIM) content in
        match find body DELIM with
        | None => body
        | Some j => take j body
        end
    end.
Proof.
  unfold mainContentOf. rewrite (split_unfold content) by apply DELIM_not_nil.
  destruct (find content DELIM) as [i|]; [|done].
  cbn [lookup list_lookup]. cbv zeta.
  rewrite (split_unfold (drop _ _)) by apply DELIM_not_nil.
  by destruct (find (drop (i + length DELIM) content) DELIM).
Qed.

Lemma includes_singleton (s : jsstring) (c : N) :
  includes s [c] = true ↔ c ∈ s.
Proof.
  rewrite includes_true. split.
  - intros (a & b & ->). apply elem_of_app. right. by left.
  - intros (a & b & ->)%list_elem_of_split. by exists a, b.
Qed.

Lemma lit_hash : lit "#" = [chr "#"].
Proof. by vm_compute. Qed.

(** C7, as stated, fails: the only [#] of this body stands in the middle
    of a line (the body neither starts with [#] nor contains a line that
    does), and no EmptyBodyContent diagnostic is reported; the document
    is valid. *)
Lemma midline_marker_counterexample :
  let content :=
    text ["---"; "Description: d"; "Globs: *.ts"; "---"; "see issue #12"] in
  mainContentOf content = lit "see issue #12"
  ∧ startsWith (lit "see issue #12") (lit "#") = false
  ∧ includes (lit "see issue #12") (NL :: lit "#") = false
  ∧ errors (validateRuleFile (lit "a.mdc") content ∅) = [].
Proof. repeat split; by vm_compute. Qed.

(** C7, amended: for every document with a closing delimiter line whose
    body (the text after that line) contains no further delimiter line,
    an EmptyBodyContent diagnostic is emitted if and only if the body
    contains no [#] at all; a [#] in the middle of a line counts. *)
Theorem empty_body_iff_no_hash filename content allRules (i : nat) :
  find content DELIM = Some i →
  let body := drop (i + length DELIM) content in
  includes body DELIM = false →
  EmptyBodyContent ∈ errors (validateRuleFile filename content allRules)
  ↔ chr "#" ∉ body.
Proof.
  intros Hi body Hbody. rewrite EmptyBodyContent_elem, mainContentOf_eq, Hi.
  cbv zeta. fold body.
  assert (find body DELIM = None) as ->.
  { destruct (find body DELIM) eqn:E; [|done].
    assert (includes body DELIM = true) by (apply includes_find; rewrite E; eauto).
    congruence. }
  rewrite lit_hash, <- includes_singleton. by destruct (includes body [chr "#"]).
Qed.

Lemma empty_body_iff_no_hash_witness :
  EmptyBodyContent
    ∈ errors (validateRuleFile (lit "a.mdc")
                (text ["---"; "Description: d"; "Globs: *.ts"; "---"; "no heading"]) ∅)
  ↔ chr "#" ∉ drop (30 + length DELIM)
                (text ["---"; "Description: d"; "Globs: *.ts"; "---"; "no heading"]).
Proof.
  apply (empty_body_iff_no_hash (lit "a.mdc")
           (text ["---"; "Description: d"; "Globs: *.ts"; "---"; "no heading"]) ∅ 30).
  - by vm_compute.
  - by vm_compute.
Defined.

(** ** The run (C1, C5, C8) *)

Lemma firstPass_lookup_from (e : Env) (files : list jsstring) (m : gmap jsstring RuleEntry) t :
  foldl (λ allRules file, <[file := {| path := pathJoin e (RULES_DIR e) file |}]> allRules)
        m files !! t = None
  ↔ m !! t = None ∧ t ∉ files.
Proof.
  revert m. induction files as [|f files IH]; intros m; simpl.
  - rewrite elem_of_nil. tauto.
  - rewrite IH, lookup_insert_None, not_elem_of_cons. split.
    + intros [[? ?] ?]. split; [done|]. split; [congruence|done].
    + intros [? [? ?]]. split; [|done]. split; [done|congruence].
Qed.

(** After the first pass the known set is the set of enumerated files. *)
Lemma firstPass_lookup (e : Env) (files : list jsstring) (t : jsstring) :
  firstPass e files !! t = None ↔ t ∉ files.
Proof.
  unfold firstPass. rewrite firstPass_lookup_from, lookup_empty. tauto.
Qed.


(** The two ways in which a run ends without having validated every
    document: the rules directory does not exist, or a read throws. *)
Lemma missing_directory_exit_code (e : Env) :
  existsSync e (RULES_DIR e) = false → exitCode (validateRules e) = 1%Z.
Proof. intros H. unfold validateRules. by rewrite H. Qed.

Lemma secondPass_throws (e : Env) allRules (files : list jsstring) (st : RunState) :
  forallb (λ file, match readOf e file with ReadOk _ => true | ReadThrows _ => false end)
          files = false →
  ∃ st' err, secondPass e allRules files st = (st', Some err).
Proof.
  revert st. induction files as [|file files IH]; intros st; cbn [secondPass forallb];
    [done|].
  unfold readOf at 1. fold (readOf e file).
  destruct (readOf e file) as [content|err]; [|by eauto].
  cbn [andb]. intros H. destruct (valid _); by apply IH.
Qed.

Lemma unreadable_file_exit_code (e : Env) :
  existsSync e (RULES_DIR e) = true → readable e = false →
  exitCode (validateRules e) = 1%Z.
Proof.
  intros Hdir Hread. unfold validateRules. rewrite Hdir. cbn [negb].
  fold (ruleFilesOf e). case_bool_decide as Hlen.
  - apply length_zero_iff_nil in Hlen. unfold readable in Hread.
    by rewrite Hlen in Hread.
  - edestruct (secondPass_throws e) as (st' & err & ->); [exact Hread|]. done.
Qed.




(** The validation of a file depends on [allRules] only through the set
    of its keys. *)
Lemma validateRuleFile_eta filename content allRules :
  validateRuleFile filename content allRules
  = {| valid := bool_decide (length (errors (validateRuleFile filename content allRules)) = 0);
       errors := errors (validateRuleFile filename content allRules) |}.
Proof. reflexivity. Qed.

Lemma validateRuleFile_ext (filename content : jsstring)
    (m1 m2 : gmap jsstring RuleEntry) :
  (∀ t, m1 !! t = None ↔ m2 !! t = None) →
  validateRuleFile filename content m1 = validateRuleFile filename content m2.
Proof.
  intros Hm.
  assert (He : errors (validateRuleFile filename content m1)
               = errors (validateRuleFile filename content m2)).
  { rewrite !errors_eq. do 4 f_equal. unfold referenceErrors.
    f_equal. f_equal. by apply list_filter_iff. }
  rewrite (validateRuleFile_eta _ _ m1), (validateRuleFile_eta _ _ m2).
  by rewrite He.
Qed.

(** C5: with the two files [a] and [b] enumerated in either order, the
    reference of each to the other is not reported as dangling; when
    they reference nothing else, the run has no DanglingReference
    diagnostic at all. *)
Theorem mutual_references_resolve (e : Env) (a b cA cB : jsstring) :
  ruleFilesOf e = [a; b] ∨ ruleFilesOf e = [b; a] →
  readOf e a = ReadOk cA → readOf e b = ReadOk cB →
  b ∈ referencesOf cA → a ∈ referencesOf cB →
  (DanglingReference b ∉ diagnosticsOf e a)
  ∧ (DanglingReference a ∉ diagnosticsOf e b)
  ∧ ((∀ t, t ∈ referencesOf cA ++ referencesOf cB → t = a ∨ t = b) →
     ∀ t, DanglingReference t ∉ diagnosticsOf e a ++ diagnosticsOf e b).
Proof.
  intros Hfiles HA HB HAB HBA.
  assert (Hknown : ∀ t, t = a ∨ t = b → firstPass e (ruleFilesOf e) !! t ≠ None).
  { intros t Ht. rewrite firstPass_lookup. intros Hn. apply Hn.
    destruct Hfiles as [-> | ->]; rewrite !elem_of_cons; tauto. }
  unfold diagnosticsOf. rewrite HA, HB.
  split; [|split].
  - rewrite DanglingReference_elem. intros [_ ?]. by apply (Hknown b); [right|].
  - rewrite DanglingReference_elem. intros [_ ?]. by apply (Hknown a); [left|].
  - intros Honly t. rewrite elem_of_app, !DanglingReference_elem.
    intros [[Ht Hn]|[Ht Hn]]; apply (Hknown t); try done;
      apply Honly, elem_of_app; tauto.
Qed.

Lemma mutual_references_resolve_witness :
  let cA := text ["---"; "Description: a"; "Globs: *"; "---"; "# A"; "@b.mdc"] in
  let cB := text ["---"; "Description: b"; "Globs: *"; "---"; "# B"; "@a.mdc"] in
  let e := sampleEnv "/repo/.cursor/rules" [(lit "b.mdc", cB); (lit "a.mdc", cA)] in
  (DanglingReference (lit "b.mdc") ∉ diagnosticsOf e (lit "a.mdc"))
  ∧ (DanglingReference (lit "a.mdc") ∉ diagnosticsOf e (lit "b.mdc"))
  ∧ ((∀ t, t ∈ referencesOf cA ++ referencesOf cB → t = lit "a.mdc" ∨ t = lit "b.mdc") →
     ∀ t, DanglingReference t
            ∉ diagnosticsOf e (lit "a.mdc") ++ diagnosticsOf e (lit "b.mdc")).
Proof.
  intros cA cB e.
  apply (mutual_references_resolve e (lit "a.mdc") (lit "b.mdc") cA cB).
  - right. reflexivity.
  - by vm_compute.
  - by vm_compute.
  - apply list_elem_of_In. vm_compute. tauto.
  - apply list_elem_of_In. vm_compute. tauto.
Defined.

(** The second pass of two runs that agree on the texts of the files, on
    the known set and on the styling. *)
Lemma secondPass_ext (e1 e2 : Env) (m1 m2 : gmap jsstring RuleEntry)
    (files : list jsstring) (st : RunState) :
  (∀ file, file ∈ files → readOf e1 file = readOf e2 file) →
  (∀ t, m1 !! t = None ↔ m2 !! t = None) →
  (∀ c s, chalk e1 c s = chalk e2 c s) →
  secondPass e1 m1 files st = secondPass e2 m2 files st.
Proof.
  intros Hread Hm Hchalk. revert st.
  induction files as [|file files IH]; intros st; cbn [secondPass]; [done|].
  fold (readOf e1 file). fold (readOf e2 file).
  rewrite <- (Hread file) by by left.
  destruct (readOf e1 file) as [content|err]; [|done].
  rewrite (validateRuleFile_ext file content m1 m2 Hm).
  assert (Hlines : errorLines e1 file (errors (validateRuleFile file content m2))
                   = errorLines e2 file (errors (validateRuleFile file content m2))).
  { unfold errorLines. rewrite Hchalk. f_equal.
    apply list_fmap_ext. intros _ error _. by rewrite Hchalk. }
  rewrite Hlines, Hchalk.
  destruct (valid _); apply IH; intros f Hf; apply Hread; by right.
Qed.

(** C8: the report of a run is determined by its document set.  Two runs
    over existing rules directories that enumerate the same identifiers
    in the same order, read the same texts and style their output alike
    print the same lines and exit with the same code, and they produce
    the same diagnostics for every document, whatever else differs
    between them (the place of the rules directory, the paths). *)
Theorem report_determined_by_documents (e1 e2 : Env) :
  existsSync e1 (RULES_DIR e1) = true → existsSync e2 (RULES_DIR e2) = true →
  ruleFilesOf e1 = ruleFilesOf e2 →
  (∀ file, file ∈ ruleFilesOf e1 → readOf e1 file = readOf e2 file) →
  (∀ c s, chalk e1 c s = chalk e2 c s) →
  validateRules e1 = validateRules e2
  ∧ ∀ file, file ∈ ruleFilesOf e1 → diagnosticsOf e1 file = diagnosticsOf e2 file.
Proof.
  intros Hd1 Hd2 Hfiles Hread Hchalk.
  assert (Hm : ∀ t, firstPass e1 (ruleFilesOf e1) !! t = None
                    ↔ firstPass e2 (ruleFilesOf e1) !! t = None).
  { intros t. by rewrite !firstPass_lookup. }
  split.
  - unfold validateRules. rewrite Hd1, Hd2. cbn [negb].
    fold (ruleFilesOf e1). fold (ruleFilesOf e2). rewrite <- Hfiles.
    rewrite !Hchalk. case_bool_decide; [done|].
    rewrite (secondPass_ext e1 e2 (firstPass e1 (ruleFilesOf e1))
               (firstPass e2 (ruleFilesOf e1)) _ _ Hread Hm Hchalk).
    destruct (secondPass e2 _ _ _) as [st [err|]]; by rewrite ?Hchalk.
  - intros file Hf. unfold diagnosticsOf. rewrite <- (Hread file Hf), <- Hfiles.
    destruct (readOf e1 file); [|done]. by rewrite (validateRuleFile_ext _ _ _ _ Hm).
Qed.

Lemma report_determined_by_documents_witness :
  let docs :=
    [(lit "base.mdc", text ["---"; "Description: d"; "Globs: *"; "---"; "# Base"]);
     (lit "orphan.mdc", text ["---"; "Description: d"; "Globs: *"; "---"; "# O";
                              "@missing.mdc"])] in
  let e1 := sampleEnv "/repo/.cursor/rules" docs in
  let e2 := sampleEnv "/other/.cursor/rules" docs in
  validateRules e1 = validateRules e2
  ∧ ∀ file, file ∈ ruleFilesOf e1 → diagnosticsOf e1 file = diagnosticsOf e2 file.
Proof.
  intros docs e1 e2. apply (report_determined_by_documents e1 e2).
  - by vm_compute.
  - by vm_compute.
  - by vm_compute.
  - intros file Hf. apply list_elem_of_In in Hf. vm_compute in Hf.
    destruct Hf as [<-|[<-|[]]]; by vm_compute.
  - intros c s. reflexivity.
Defined.

(** ** A blank pattern list (C4) *)

Lemma unixLines_check (s : jsstring) :
  forallb (λ c, implb (isLineTerminator c) (c =? NL)%N) s = true → unixLines s.
Proof.
  intros H. apply Forall_forall. intros c Hc%list_elem_of_In Hlt.
  rewrite forallb_forall in H. specialize (H c Hc). rewrite Hlt in H.
  by apply N.eqb_eq in H.
Qed.

Lemma run_Grp {R} i r s c (k : jsstring → captures → option R) :
  run (Grp i r) s c k
  = run r s c (λ s1 c1, k s1 (<[i := take (length s - length s1) s]> c1)).
Proof. reflexivity. Qed.

Lemma run_Alt {R} r1 r2 s c (k : jsstring → captures → option R) :
  run (Alt r1 r2) s c k
  = match run r1 s c k with Some x => Some x | None => run r2 s c k end.
Proof. reflexivity. Qed.

Lemma span (p : N → bool) (s : jsstring) :
  ∃ w rest, s = w ++ rest ∧ Forall (λ x, p x = true) w
            ∧ ∀ y t, rest = y :: t → p y = false.
Proof.
  induction s as [|x s (w & rest & -> & Hw & Hrest)].
  - exists [], []. split; [done|]. split; [constructor|done].
  - destruct (p x) eqn:Hx.
    + exists (x :: w), rest. split; [done|]. split; [by constructor|done].
    + exists [], (x :: w ++ rest). split; [done|]. split; [constructor|].
      by intros y t [= <- _].
Qed.

Lemma isSpace_not_dot (c : N) : isSpace c = false → isDot c = true.
Proof.
  unfold isSpace, isDot. destruct (isLineTerminator c); [|done].
  by rewrite orb_true_r.
Qed.

Lemma matchFirst_Some r (s : jsstring) m :
  matchFirst r s = Some m → ∃ s', matchAt r s' = Some m.
Proof.
  induction s as [|x s IH]; cbn [matchFirst].
  - destruct (matchAt r []) eqn:E; [|done]. intros [= <-]. eauto.
  - destruct (matchAt r (x :: s)) eqn:E; [|done]. intros [= <-]. eauto.
Qed.

(** The first group takes part in every match of the pattern, so that
    [globsMatch[1]] is a string. *)
Lemma globsRegex_group1 (s : jsstring) m :
  matchFirst globsRegex s = Some m → is_Some (groups m !! 1).
Proof.
  intros (s' & Hm)%matchFirst_Some. unfold matchAt, globsRegex in Hm.
  apply run_sound in Hm as (r & c & HM & [= <-]). cbn [groups].
  apply Matches_Seq in HM as (s1 & c1 & _ & HM).
  apply Matches_Seq in HM as (s2 & c2 & _ & HM).
  apply Matches_Seq in HM as (s3 & c3 & H1 & H2).
  apply Matches_Grp in H1 as (c4 & _ & ->).
  apply Matches_Grp in H2 as (c5 & H2 & ->).
  apply Matches_Alt in H2 as [H2|H2].
  - apply Matches_Chr in H2 as [_ ->].
    rewrite lookup_insert_ne by done. rewrite lookup_insert_eq. eauto.
  - apply Matches_Eos in H2 as (_ & _ & ->).
    rewrite lookup_insert_ne by done. rewrite lookup_insert_eq. eauto.
Qed.

(** At [Globs:], white space, then a value that starts with a character
    other than white space and runs to the end of its line: the pattern
    matches, and its first group is that value. *)
Lemma matchAt_globs_value (ws d rest : jsstring) (c : N) :
  Forall (λ x, isSpace x = true) ws → isSpace c = false →
  Forall (λ x, isDot x = true) d →
  rest = [] ∨ (∃ t, rest = NL :: t) →
  ∃ m, matchAt globsRegex (lit "Globs:" ++ ws ++ c :: d ++ rest) = Some m
       ∧ groups m !! 1 = Some (c :: d).
Proof.
  intros Hws Hc Hd Hrest. unfold matchAt, globsRegex.
  rewrite run_Seq, run_Str_app, run_Seq.
  set (s0 := lit "Globs:" ++ ws ++ c :: d ++ rest).
  set (kf := λ (r : jsstring) (cs : captures),
               Some {| whole := take (length s0 - length r) s0; groups := cs |}).
  assert (Hend : ∃ g m, run (Grp 2 (Alt (Chr NL) Eos)) rest
                          (<[1 := c :: d]> ∅) kf = Some m
                        ∧ groups m = <[2 := g]> (<[1 := c :: d]> ∅)).
  { rewrite run_Grp, run_Alt. destruct Hrest as [-> | [t ->]].
    - eexists _, _. split; [reflexivity|]. reflexivity.
    - rewrite run_Chr_cons, N.eqb_refl. eexists _, _. split; reflexivity. }
  destruct Hend as (g & m & Hm & Hg).
  exists m. split.
  - erewrite run_Star_Cls_greedy; [reflexivity|done| |].
    + intros y t [= <- _]. done.
    + rewrite run_Seq, run_Grp. unfold Plus. rewrite run_Seq, run_Cls_cons.
      rewrite (isSpace_not_dot c Hc).
      erewrite run_Star_Cls_greedy; [reflexivity|done| |].
      * intros y t ->. destruct Hrest as [?|[t' [= -> _]]]; done.
      * change (c :: d ++ rest) with ((c :: d) ++ rest).
        rewrite take_app_minus. exact Hm.
  - rewrite Hg. rewrite lookup_insert_ne by done. apply lookup_insert_eq.
Qed.

Lemma trimStart_head (s t : jsstring) (y : N) :
  trimStart s = y :: t → isSpace y = false.
Proof.
  induction s as [|x s IH]; simpl; [done|].
  destruct (isSpace x) eqn:Hx; [done|]. by intros [= <- _].
Qed.

Lemma trim_last (s s0 : jsstring) (y : N) :
  trim s = s0 ++ [y] → isSpace y = false.
Proof.
  unfold trim, trimEnd. intros H.
  apply (f_equal reverse) in H. rewrite reverse_involutive, reverse_snoc in H.
  by apply trimStart_head in H.
Qed.

Lemma trimStart_snoc_not_nil (l : jsstring) (c : N) :
  isSpace c = false → trimStart (l ++ [c]) ≠ [].
Proof.
  intros Hc. induction l as [|x l IH]; simpl.
  - by rewrite Hc.
  - by destruct (isSpace x).
Qed.

Lemma trim_value_not_nil (c : N) (d : jsstring) :
  isSpace c = false → trim (c :: d) ≠ [].
Proof.
  intros Hc. unfold trim, trimEnd. cbn [trimStart]. rewrite Hc, reverse_cons.
  intros H. apply (f_equal reverse) in H. rewrite reverse_involutive in H.
  by apply trimStart_snoc_not_nil in H.
Qed.

Lemma unixLines_trimStart s : unixLines s → unixLines (trimStart s).
Proof.
  unfold unixLines. induction 1 as [|x s Hx Hs IH]; simpl; [constructor|].
  destruct (isSpace x); [done|]. by constructor.
Qed.

Lemma unixLines_trim s : unixLines s → unixLines (trim s).
Proof.
  intros H. unfold trim, trimEnd. apply Forall_reverse, unixLines_trimStart.
  by apply Forall_reverse, unixLines_trimStart.
Qed.

Lemma unixLines_frontmatter content : unixLines content → unixLines (frontmatterOf content).
Proof.
  intros H. unfold frontmatterOf. destruct (startsWith _ _); [|constructor].
  case_bool_decide; [|constructor].
  apply unixLines_trim. unfold substring. by apply Forall_take, Forall_drop.
Qed.

(** Where the pattern matches in a text with [\n] line ends that does not
    end in white space, the value it captures is not blank. *)
Lemma matchAt_globs_not_blank (s : jsstring) (m : MatchResult) :
  unixLines s → (∀ s0 y, s = s0 ++ [y] → isSpace y = false) →
  matchAt globsRegex s = Some m →
  trim (default [] (groups m !! 1)) ≠ [].
Proof.
  intros Hunix Hlast Hm.
  assert (∃ s1, s = lit "Globs:" ++ s1) as [s1 ->].
  { unfold matchAt, globsRegex in Hm. apply run_sound in Hm as (r & c1 & HM & _).
    apply Matches_Seq in HM as (r1 & c2 & H1 & _).
    apply Matches_Str in H1 as [-> _]. eauto. }
  destruct (span isSpace s1) as (ws & rest & -> & Hws & Hrest).
  destruct rest as [|c rest].
  - assert (ws = []) as ->.
    { destruct ws as [|x ws _] using rev_ind; [done|].
      rewrite Forall_app, Forall_singleton in Hws. destruct Hws as [_ Hx].
      rewrite app_nil_r, app_assoc in Hlast. specialize (Hlast _ _ eq_refl). congruence. }
    by vm_compute in Hm.
  - specialize (Hrest c rest eq_refl).
    destruct (span isDot rest) as (d & rest' & -> & Hd & Hrest').
    destruct (matchAt_globs_value ws d rest' c Hws Hrest Hd) as (m' & Hm' & Hg).
    + destruct rest' as [|y t]; [by left|right]. exists t. f_equal.
      specialize (Hrest' y t eq_refl). unfold isDot in Hrest'.
      apply negb_false_iff in Hrest'.
      unfold unixLines in Hunix.
      rewrite !Forall_app, Forall_cons, Forall_app, Forall_cons in Hunix.
      destruct Hunix as (_ & _ & _ & _ & Hy & _). auto.
    + rewrite Hm in Hm'. injection Hm' as ->. rewrite Hg. cbn [default].
      by apply trim_value_not_nil.
Qed.

Lemma matchFirst_globs_not_blank (s : jsstring) (m : MatchResult) :
  unixLines s → (∀ s0 y, s = s0 ++ [y] → isSpace y = false) →
  matchFirst globsRegex s = Some m →
  trim (default [] (groups m !! 1)) ≠ [].
Proof.
  induction s as [|x s IH]; intros Hunix Hlast; cbn [matchFirst].
  - destruct (matchAt globsRegex []) eqn:E; [|done].
    intros [= <-]. by eapply matchAt_globs_not_blank.
  - destruct (matchAt globsRegex (x :: s)) eqn:E.
    + intros [= <-]. by eapply matchAt_globs_not_blank.
    + apply IH.
      * by apply Forall_cons in Hunix as [_ ?].
      * intros s0 y ->. by apply (Hlast (x :: s0) y).
Qed.

Lemma globsErrors_unixLines content :
  unixLines content → globsErrors (frontmatterOf content) = [].
Proof.
  intros Hunix. unfold globsErrors.
  destruct (matchFirst globsRegex (frontmatterOf content)) as [m|] eqn:E; [|done].
  rewrite bool_decide_eq_false_2; [done|].
  eapply matchFirst_globs_not_blank; [| |exact E].
  - by apply unixLines_frontmatter.
  - unfold frontmatterOf. destruct (startsWith _ _); [|by intros [] ?].
    case_bool_decide; [|by intros [] ?]. intros s0 y. apply trim_last.
Qed.

(** On a text whose only line terminator is [\n] the validator never
    reports an empty pattern list. *)
Theorem unixLines_never_EmptyRequiredValue filename content allRules :
  unixLines content →
  globsErrors (frontmatterOf content) = []
  ∧ EmptyRequiredValue ∉ errors (validateRuleFile filename content allRules).
Proof.
  intros Hunix. pose proof (globsErrors_unixLines content Hunix) as Hg.
  split; [done|].
  rewrite errors_elem, Hg, headerErrors_elem, closingErrors_elem, keyErrors_elem,
    referenceErrors_elem, bodyErrors_elem, elem_of_nil.
  destruct (messages_distinct [] [])
    as (_ & _ & D1 & _ & _ & _ & D2 & _ & _ & _ & _ & _ & _ & D3 & _).
  intros [[H _]|[[H _]|[(s & H & _)|[[]|[(t & H & _)|[H _]]]]]]; try done.
Qed.

Lemma unixLines_never_EmptyRequiredValue_witness :
  let content := text ["---"; "Description: d"; "Globs:   "; "---"; "# Title"] in
  globsErrors (frontmatterOf content) = []
  ∧ EmptyRequiredValue ∉ errors (validateRuleFile (lit "a.mdc") content ∅).
Proof.
  intros content.
  apply (unixLines_never_EmptyRequiredValue (lit "a.mdc") content ∅).
  apply unixLines_check. by vm_compute.
Defined.

(** C4: the code departs from the claim on these documents.  The header
    block has the key [Globs:] with a blank value, and no diagnostic at
    all is reported: [\s*] runs over the line break, so the pattern
    either finds no match (the key on the last line of the header block)
    or captures the next line as the value. *)
Theorem blank_globs_not_reported :
  let last := text ["---"; "Description: d"; "Globs:   "; "---"; "# Title"] in
  let first := text ["---"; "Globs:   "; "Description: d"; "---"; "# Title"] in
  frontmatterOf last = text ["Description: d"; "Globs:"]
  ∧ matchFirst globsRegex (frontmatterOf last) = None
  ∧ errors (validateRuleFile (lit "a.mdc") last ∅) = []
  ∧ frontmatterOf first = text ["Globs:   "; "Description: d"]
  ∧ (groups <$> matchFirst globsRegex (frontmatterOf first))
    = Some {[ 1 := lit "Description: d"; 2 := [] ]}
  ∧ errors (validateRuleFile (lit "a.mdc") first ∅) = [].
Proof. repeat split; by vm_compute. Qed.

(** ** Well-formed documents (C2) *)

(** C2: the code departs from the claim on this document.  It starts with
    the delimiter line, has a closing delimiter line, its header block
    holds both keys with values, it has no reference token, and its body
    (the text after the closing delimiter line) has the heading
    [# Rules]; the validator still reports EmptyBodyContent, because
    [split] cuts the body at the rule [---] that precedes the heading. *)
Theorem heading_after_rule_reported :
  let content :=
    text ["---"; "Description: d"; "Globs: *.ts"; "---"; "Intro"; "---"; "# Rules"] in
  startsWith content (lit "---") = true
  ∧ find content DELIM = Some 30
  ∧ frontmatterOf content = text ["Description: d"; "Globs: *.ts"]
  ∧ drop (30 + length DELIM) content = text ["Intro"; "---"; "# Rules"]
  ∧ referencesOf content = []
  ∧ mainContentOf content = lit "Intro"
  ∧ errors (validateRuleFile (lit "a.mdc") content ∅) = [EmptyBodyContent].
Proof. repeat split; by vm_compute. Qed.

(** Without a further delimiter line in the body, and with [\n] line
    ends, a well-formed document is valid. *)
Theorem well_formed_document_valid filename content allRules (i : nat) :
  unixLines content →
  startsWith content (lit "---") = true →
  find content DELIM = Some i →
  includes (frontmatterOf content) (lit "Description:") = true →
  includes (frontmatterOf content) (lit "Globs:") = true →
  let body := drop (i + length DELIM) content in
  includes body DELIM = false → chr "#" ∈ body →
  (∀ t, t ∈ referencesOf content → allRules !! t ≠ None) →
  errors (validateRuleFile filename content allRules) = []
  ∧ valid (validateRuleFile filename content allRules) = true.
Proof.
  intros Hunix Hstart Hi Hdesc Hglobs body Hbody Hhash Hrefs.
  assert (He : errors (validateRuleFile filename content allRules) = []).
  { rewrite errors_eq.
    rewrite (globsErrors_unixLines content Hunix).
    unfold headerErrors, closingErrors. rewrite Hstart.
    assert (includes content DELIM = true) as ->.
    { apply includes_find. rewrite Hi. eauto. }
    assert (keyErrors (frontmatterOf content) = []) as ->.
    { unfold keyErrors, REQUIRED_SECTIONS. rewrite !filter_cons, filter_nil.
      change (lit "Description" ++ lit ":") with (lit "Description:").
      change (lit "Globs" ++ lit ":") with (lit "Globs:").
      rewrite Hdesc, Hglobs. by rewrite !decide_False by done. }
    assert (referenceErrors content allRules = []) as ->.
    { unfold referenceErrors.
      destruct (filter _ (referencesOf content)) as [|t l] eqn:E; [done|].
      assert (Ht : t ∈ filter (λ t, allRules !! t = None) (referencesOf content))
        by (rewrite E; by left).
      apply list_elem_of_filter in Ht as [Hn Ht]. by apply Hrefs in Ht. }
    assert (bodyErrors content = []) as ->; [|done].
    unfold bodyErrors.
    destruct (includes (mainContentOf content) (lit "#")) eqn:E; [done|].
    exfalso. revert E. rewrite mainContentOf_eq, Hi. cbv zeta. fold body.
    assert (find body DELIM = None) as ->.
    { destruct (find body DELIM) eqn:F; [|done].
      assert (includes body DELIM = true) by (apply includes_find; rewrite F; eauto).
      congruence. }
    rewrite lit_hash. apply includes_singleton in Hhash. congruence. }
  split; [done|]. by apply valid_iff.
Qed.

Lemma well_formed_document_valid_witness :
  let content :=
    text ["---"; "Description: d"; "Globs: *.ts"; "---"; "# Rules"; "@base.mdc"] in
  let allRules : gmap jsstring RuleEntry := {[ lit "base.mdc" := {| path := lit "p" |} ]} in
  errors (validateRuleFile (lit "a.mdc") content allRules) = []
  ∧ valid (validateRuleFile (lit "a.mdc") content allRules) = true.
Proof.
  intros content allRules.
  apply (well_formed_document_valid (lit "a.mdc") content allRules 30).
  - apply unixLines_check. by vm_compute.
  - by vm_compute.
  - by vm_compute.
  - by vm_compute.
  - by vm_compute.
  - by vm_compute.
  - apply list_elem_of_In. vm_compute. tauto.
  - intros t Ht. apply list_elem_of_In in Ht. vm_compute in Ht.
    destruct Ht as [<-|[]]. by vm_compute.
Defined.

(** * Further properties of the validator *)

(** ** The references of a text *)

Lemma matchAllFrom_suffix r skip (s w : jsstring) :
  w ∈ matchAllFrom r skip s →
  ∃ pre s' m, s = pre ++ s' ∧ matchAt r s' = Some m ∧ whole m = w.
Proof.
  revert skip. induction s as [|x s IH]; intros skip; destruct skip as [|k]; simpl.
  - destruct (matchAt r []) as [m|] eqn:E.
    + intros ->%list_elem_of_singleton. by exists [], [], m.
    + by intros ?%elem_of_nil.
  - by intros ?%elem_of_nil.
  - destruct (matchAt r (x :: s)) as [m|] eqn:E.
    + intros [->|H]%elem_of_cons; [by exists [], (x :: s), m|].
      apply IH in H as (pre & s' & m' & -> & ? & ?). by exists (x :: pre), s', m'.
    + intros H. apply IH in H as (pre & s' & m' & -> & ? & ?).
      by exists (x :: pre), s', m'.
  - intros H. apply IH in H as (pre & s' & m' & -> & ? & ?).
    by exists (x :: pre), s', m'.
Qed.

(** The references the validator looks up are exactly the names
    [name.mdc] of the tokens [@name.mdc] that occur in the text, [name]
    a non-empty run of [[A-Za-z0-9_-]]. *)
Theorem references_exactly_tokens (content t : jsstring) :
  t ∈ referencesOf content
  ↔ ∃ pre name post,
      content = pre ++ chr "@" :: name ++ lit ".mdc" ++ post
      ∧ name ≠ [] ∧ Forall (λ x, isRefChar x = true) name
      ∧ t = name ++ lit ".mdc".
Proof.
  split.
  - unfold referencesOf, matchAll. intros (ref & -> & Href)%list_elem_of_fmap.
    apply matchAllFrom_suffix in Href as (pre & s' & m & -> & Hm & <-).
    apply matchAt_ref_shape in Hm as (w & rest & -> & Hne & Hw & ->).
    exists pre, w, rest. by rewrite substringFrom_cons.
  - intros (pre & name & post & -> & Hne & Hname & ->).
    by apply referencesOf_token.
Qed.

(** ** The shape of the array of errors *)

Lemma filter_nil_not {A} (P : A → Prop) `{!∀ x, Decision (P x)} (l : list A) :
  (∀ x, x ∈ l → ¬ P x) → filter P l = [].
Proof.
  induction l as [|x l IH]; intros Hl; [done|].
  rewrite filter_cons, decide_False by (apply Hl; by left).
  apply IH. intros y Hy. apply Hl. by right.
Qed.

(** The diagnostics of a document come in a fixed order: the structural
    ones, each at most once; then one DanglingReference for every
    occurrence of a reference to an unknown file, in the order of the
    text; then EmptyBodyContent, at most once. *)
Theorem diagnostics_shape filename content allRules :
  ∃ structural body,
    errors (validateRuleFile filename content allRules)
    = structural
        ++ (DanglingReference <$> filter (λ t, allRules !! t = None) (referencesOf content))
        ++ body
    ∧ structural `sublist_of`
        [MissingHeaderBlock; UnterminatedHeaderBlock;
         MissingRequiredKey (lit "Description"); MissingRequiredKey (lit "Globs");
         EmptyRequiredValue]
    ∧ body `sublist_of` [EmptyBodyContent].
Proof.
  exists (headerErrors content ++ closingErrors content
            ++ keyErrors (frontmatterOf content) ++ globsErrors (frontmatterOf content)),
    (bodyErrors content).
  split; [|split].
  - rewrite errors_eq. unfold referenceErrors. by rewrite <- !app_assoc.
  - unfold headerErrors, closingErrors, keyErrors, globsErrors, REQUIRED_SECTIONS.
    rewrite !filter_cons, filter_nil.
    destruct (startsWith _ _), (includes content DELIM),
      (includes (frontmatterOf content) (lit "Description" ++ lit ":")),
      (includes (frontmatterOf content) (lit "Globs" ++ lit ":")),
      (matchFirst globsRegex _) as [m|];
      try destruct (bool_decide _); simpl; repeat constructor.
  - unfold bodyErrors. destruct (includes _ _); repeat constructor.
Qed.

(** A reference to an unknown file is reported once for each of its
    occurrences in the text; duplicates are not merged. *)
Theorem dangling_once_per_occurrence filename content allRules (t : jsstring) :
  allRules !! t = None →
  length (filter (λ e, e = DanglingReference t)
            (errors (validateRuleFile filename content allRules)))
  = length (filter (λ u, u = t) (referencesOf content)).
Proof.
  intros Ht.
  assert (Hrefs : ∀ refs : list jsstring,
            length (filter (λ e, e = DanglingReference t)
                      (DanglingReference <$> filter (λ t, allRules !! t = None) refs))
            = length (filter (λ u, u = t) refs)).
  { induction refs as [|u refs IH]; [done|].
    rewrite (filter_cons (λ u, u = t)), (filter_cons (λ t, allRules !! t = None)).
    destruct (decide (u = t)) as [->|Hne].
    - rewrite decide_True by done. cbn [fmap list_fmap].
      rewrite filter_cons, decide_True by done. cbn [length]. by rewrite IH.
    - destruct (decide (allRules !! u = None)); [|done].
      cbn [fmap list_fmap]. rewrite filter_cons, decide_False; [done|].
      by intros ?%DanglingReference_inj. }
  rewrite errors_eq, !filter_app, !length_app.
  rewrite (filter_nil_not _ (headerErrors content)), (filter_nil_not _ (closingErrors content)),
    (filter_nil_not _ (keyErrors _)), (filter_nil_not _ (globsErrors _)),
    (filter_nil_not _ (bodyErrors content)).
  - unfold referenceErrors. rewrite Hrefs. cbn [length]. lia.
  - intros e [-> _]%bodyErrors_elem E.
    by destruct (messages_distinct [] t)
      as (_ & _ & _ & _ & _ & _ & _ & _ & _ & _ & _ & _ & _ & _ & ?).
  - intros e ->%globsErrors_elem E.
    by destruct (messages_distinct [] t)
      as (_ & _ & _ & _ & _ & _ & _ & _ & _ & _ & _ & _ & ? & _).
  - intros e (s & -> & _)%keyErrors_elem E.
    by destruct (messages_distinct s t)
      as (_ & _ & _ & _ & _ & _ & _ & _ & _ & _ & ? & _).
  - intros e [-> _]%closingErrors_elem E.
    by destruct (messages_distinct [] t) as (_ & _ & _ & _ & _ & _ & _ & ? & _).
  - intros e [-> _]%headerErrors_elem E.
    by destruct (messages_distinct [] t) as (_ & _ & _ & ? & _).
Qed.

Lemma dangling_once_per_occurrence_witness :
  let content :=
    text ["---"; "Description: d"; "Globs: *"; "---"; "# T"; "@ghost.mdc, @ghost.mdc"] in
  length (filter (λ e, e = DanglingReference (lit "ghost.mdc"))
            (errors (validateRuleFile (lit "a.mdc") content ∅)))
  = length (filter (λ u, u = lit "ghost.mdc") (referencesOf content)).
Proof.
  intros content.
  apply (dangling_once_per_occurrence (lit "a.mdc") content ∅ (lit "ghost.mdc")).
  reflexivity.
Defined.

(** ** A document without a closing delimiter line *)

Lemma find_drop_None (s p : jsstring) (k : nat) :
  find s p = None → find (drop k s) p = None.
Proof.
  intros Hs. destruct (find (drop k s) p) as [i|] eqn:E; [|done].
  apply find_Some in E as [E _]. exfalso.
  apply (find_None s p Hs (take k s ++ take i (drop k s)) (drop (i + length p) (drop k s))).
  rewrite <- app_assoc, <- E. by rewrite take_drop.
Qed.

Lemma includes_false_find (s p : jsstring) : includes s p = false → find s p = None.
Proof.
  intros H. destruct (find s p) eqn:E; [|done].
  assert (includes s p = true) by (apply includes_find; rewrite E; eauto). congruence.
Qed.

Lemma frontmatterOf_unterminated content :
  includes content DELIM = false → frontmatterOf content = [].
Proof.
  intros H%includes_false_find. unfold frontmatterOf, indexOf.
  rewrite (find_drop_None _ _ _ H). by destruct (startsWith _ _).
Qed.

(** A document with no closing delimiter line is reported with an
    unterminated header block, with both required keys missing and with
    an empty body, whatever its text holds: neither a header block nor a
    body is taken from it. *)
Theorem unterminated_document_errors filename content allRules :
  includes content DELIM = false →
  errors (validateRuleFile filename content allRules)
  = (if startsWith content (lit "---") then [] else [MissingHeaderBlock])
      ++ [UnterminatedHeaderBlock;
          MissingRequiredKey (lit "Description"); MissingRequiredKey (lit "Globs")]
      ++ (DanglingReference <$> filter (λ t, allRules !! t = None) (referencesOf content))
      ++ [EmptyBodyContent].
Proof.
  intros H. rewrite errors_eq, (frontmatterOf_unterminated _ H).
  unfold closingErrors, bodyErrors. rewrite H, mainContentOf_eq.
  rewrite (includes_false_find _ _ H). reflexivity.
Qed.

Lemma unterminated_document_errors_witness :
  let content := text ["---"; "Description: d"; "Globs: *.ts"; "# Title"; "---"] in
  errors (validateRuleFile (lit "a.mdc") content ∅)
  = (if startsWith content (lit "---") then [] else [MissingHeaderBlock])
      ++ [UnterminatedHeaderBlock;
          MissingRequiredKey (lit "Description"); MissingRequiredKey (lit "Globs")]
      ++ (DanglingReference <$> filter (λ t, (∅ : gmap jsstring RuleEntry) !! t = None)
                                  (referencesOf content))
      ++ [EmptyBodyContent].
Proof.
  intros content. apply (unterminated_document_errors (lit "a.mdc") content ∅).
  by vm_compute.
Defined.

(** ** Header block and body of a document *)

Lemma lit_dashes : lit "---" = [45; 45; 45]%N.
Proof. by vm_compute. Qed.

Lemma find_after_dashes (content : jsstring) :
  startsWith content (lit "---") = true →
  find content DELIM = (λ i, 3 + i) <$> find (drop 3 content) DELIM.
Proof.
  intros [t ->]%startsWith_true. rewrite lit_dashes. cbn [app drop].
  assert (Hd : ∀ s, startsWith (45%N :: s) DELIM = false) by done.
  rewrite drop_0. cbn [find]. rewrite !Hd. by destruct (find t DELIM).
Qed.

Lemma indexOf_3 (content : jsstring) :
  startsWith content (lit "---") = true →
  indexOf content DELIM 3
  = match find content DELIM with Some i => Z.of_nat i | None => (-1)%Z end.
Proof.
  intros Hs. rewrite (find_after_dashes _ Hs).
  apply startsWith_true in Hs as [t ->]. rewrite lit_dashes.
  unfold indexOf. cbn [app length].
  replace (Z.to_nat (0 `max` (3 `min` Z.of_nat (S (S (S (length t))))))) with 3 by lia.
  by destruct (find (drop 3 _) DELIM).
Qed.

Lemma substring_3 (s : jsstring) (i : nat) :
  3 ≤ i → i ≤ length s →
  substring s 3 (Z.of_nat i) = take (i - 3) (drop 3 s).
Proof.
  intros H3 Hi. unfold substring.
  replace (0 `max` (3 `min` Z.of_nat (length s)))%Z with 3%Z by lia.
  replace (0 `max` (Z.of_nat i `min` Z.of_nat (length s)))%Z with (Z.of_nat i) by lia.
  replace (Z.to_nat (3 `min` Z.of_nat i)) with 3 by lia.
  by replace (Z.to_nat (3 `max` Z.of_nat i - 3 `min` Z.of_nat i)) with (i - 3) by lia.
Qed.

(** The two places where the script looks for the closing delimiter line,
    [indexOf] from position 3 for the header block and [split] for the
    body, cut the text at the same line. *)
Lemma document_split (content : jsstring) (i : nat) :
  startsWith content (lit "---") = true → find content DELIM = Some i →
  ∃ header,
    content = lit "---" ++ header ++ DELIM ++ drop (i + length DELIM) content
    ∧ i = 3 + length header
    ∧ frontmatterOf content = trim header.
Proof.
  intros Hs Hi. pose proof (indexOf_3 _ Hs) as Hix. rewrite Hi in Hix.
  pose proof Hi as Hi'. rewrite (find_after_dashes _ Hs) in Hi'.
  destruct (find (drop 3 content) DELIM) as [j|] eqn:Hj; [|done].
  injection Hi' as <-. apply find_Some in Hj as [Hj _].
  pose proof Hs as [t Ht]%startsWith_true.
  assert (Hd : drop 3 content = t) by (rewrite Ht, lit_dashes; done).
  assert (Hlen : length content = 3 + length t) by (rewrite Ht, lit_dashes; done).
  exists (take j t). rewrite Hd in Hj.
  assert (Hjt : j + length DELIM ≤ length t).
  { pose proof (f_equal length Hj) as L. rewrite !length_app, length_take in L.
    change (length DELIM) with 5 in *. lia. }
  split; [|split].
  - rewrite Ht at 1. f_equal. rewrite Hj at 1. do 2 f_equal.
    rewrite Ht, lit_dashes. cbn [app]. done.
  - rewrite length_take. lia.
  - unfold frontmatterOf. rewrite Hs, Hix.
    rewrite bool_decide_eq_true_2 by lia.
    rewrite substring_3 by lia. rewrite Hd. do 2 f_equal. lia.
Qed.

Lemma take_find_no_occurrence (s p : jsstring) (j : nat) :
  p ≠ [] → find s p = Some j → includes (take j s) p = false.
Proof.
  intros Hp Hj. destruct (includes (take j s) p) eqn:E; [|done]. exfalso.
  apply includes_true in E as (a & b & E).
  apply find_Some in Hj as [_ Hmin].
  assert (Hlen : length a + length p ≤ j).
  { apply (f_equal length) in E. rewrite length_take, !length_app in E. lia. }
  assert (length a < j) by (destruct p; [done|]; simpl in Hlen; lia).
  specialize (Hmin (length a) ltac:(done)).
  rewrite <- (take_drop j s), E, <- !app_assoc, drop_app_length in Hmin.
  by rewrite startsWith_app in Hmin.
Qed.

(** The parts of a document that has both delimiters: the header block
    lies between the opening marker and the first delimiter line, the
    body the script checks starts right after that line, stops before the
    next delimiter line when there is one, and never holds a delimiter
    line itself. *)
Theorem document_parts (content : jsstring) :
  startsWith content (lit "---") = true → includes content DELIM = true →
  ∃ header rest,
    content = lit "---" ++ header ++ DELIM ++ rest
    ∧ find content DELIM = Some (3 + length header)
    ∧ frontmatterOf content = trim header
    ∧ (mainContentOf content = rest
       ∨ ∃ more, rest = mainContentOf content ++ DELIM ++ more)
    ∧ includes (mainContentOf content) DELIM = false.
Proof.
  intros Hs [i Hi]%includes_find.
  destruct (document_split content i Hs Hi) as (header & Hc & -> & Hfm).
  exists header, (drop (3 + length header + length DELIM) content).
  split; [done|]. split; [done|]. split; [done|].
  rewrite mainContentOf_eq, Hi. cbv zeta.
  destruct (find (drop _ content) DELIM) as [j|] eqn:Hj.
  - split.
    + right. apply find_Some in Hj as [Hj _]. eauto.
    + by apply take_find_no_occurrence.
  - split; [by left|].
    destruct (includes _ DELIM) eqn:E; [|done].
    apply includes_find in E as [? E]. congruence.
Qed.

Lemma document_parts_witness :
  let content :=
    text ["---"; "Description: d"; "Globs: *.ts"; "---"; "Intro"; "---"; "# Rules"] in
  ∃ header rest,
    content = lit "---" ++ header ++ DELIM ++ rest
    ∧ find content DELIM = Some (3 + length header)
    ∧ frontmatterOf content = trim header
    ∧ (mainContentOf content = rest
       ∨ ∃ more, rest = mainContentOf content ++ DELIM ++ more)
    ∧ includes (mainContentOf content) DELIM = false.
Proof.
  intros content. apply (document_parts content); by vm_compute.
Defined.

(** ** What a valid document holds *)

Lemma trimStart_suffix (s : jsstring) : ∃ ws, s = ws ++ trimStart s.
Proof.
  induction s as [|x s [ws IH]]; [by exists []|]. simpl.
  destruct (isSpace x); [|by exists []]. exists (x :: ws). by rewrite IH at 1.
Qed.

Lemma trim_infix (s : jsstring) : ∃ a b, s = a ++ trim s ++ b.
Proof.
  unfold trim, trimEnd. destruct (trimStart_suffix s) as [a Ha].
  destruct (trimStart_suffix (reverse (trimStart s))) as [b Hb].
  exists a, (reverse b). rewrite Ha at 1. f_equal.
  rewrite <- reverse_app, <- Hb. by rewrite reverse_involutive.
Qed.

Lemma includes_trim_inv (s p : jsstring) :
  includes (trim s) p = true → includes s p = true.
Proof.
  rewrite !includes_true. intros (a & b & H).
  destruct (trim_infix s) as (a' & b' & Hs).
  exists (a' ++ a), (b ++ b'). rewrite Hs at 1. rewrite H. by rewrite <- !app_assoc.
Qed.

(** A document the validator accepts starts with the opening marker and
    has a closing delimiter line; the header block between them holds
    [Description:] and [Globs:]; the text after the delimiter line holds
    a [#]; and every reference in the text is to a known file. *)
Theorem valid_document_is_well_formed filename content allRules :
  valid (validateRuleFile filename content allRules) = true →
  ∃ header rest,
    content = lit "---" ++ header ++ DELIM ++ rest
    ∧ includes header (lit "Description:") = true
    ∧ includes header (lit "Globs:") = true
    ∧ chr "#" ∈ rest
    ∧ ∀ t, t ∈ referencesOf content → is_Some (allRules !! t).
Proof.
  intros He%valid_iff.
  assert (Hno : ∀ e, e ∉ errors (validateRuleFile filename content allRules)).
  { intros e. rewrite He. apply not_elem_of_nil. }
  assert (Hs : startsWith content (lit "---") = true).
  { destruct (startsWith _ _) eqn:E; [done|]. exfalso.
    apply (Hno MissingHeaderBlock), errors_elem. left. by apply headerErrors_elem. }
  assert (Hd : includes content DELIM = true).
  { destruct (includes content DELIM) eqn:E; [done|]. exfalso.
    apply (Hno UnterminatedHeaderBlock), errors_elem. right. left.
    by apply closingErrors_elem. }
  apply includes_find in Hd as [i Hi].
  destruct (document_split content i Hs Hi) as (header & Hc & _ & Hfm).
  set (rest := drop (i + length DELIM) content) in *.
  assert (Hmain : mainContentOf content = rest
                  ∨ ∃ more, rest = mainContentOf content ++ DELIM ++ more).
  { rewrite mainContentOf_eq, Hi. cbv zeta. fold rest.
    destruct (find rest DELIM) as [j|] eqn:Hj; [|by left].
    right. apply find_Some in Hj as [Hj _]. eauto. }
  assert (Hkey : ∀ section, section ∈ REQUIRED_SECTIONS →
                   includes header (section ++ lit ":") = true).
  { intros section Hsec. apply includes_trim_inv. rewrite <- Hfm.
    destruct (includes (frontmatterOf content) (section ++ lit ":")) eqn:E; [done|].
    exfalso.
    by apply (Hno (MissingRequiredKey section)), MissingRequiredKey_elem. }
  assert (Hhash : chr "#" ∈ mainContentOf content).
  { apply includes_singleton. rewrite <- lit_hash.
    destruct (includes (mainContentOf content) (lit "#")) eqn:E; [done|]. exfalso.
    by apply (Hno EmptyBodyContent), EmptyBodyContent_elem. }
  exists header, rest. split; [done|].
  split; [apply (Hkey (lit "Description")); by left|].
  split; [apply (Hkey (lit "Globs")); right; by left|].
  split.
  - destruct Hmain as [<-|[more ->]]; [done|]. apply elem_of_app. by left.
  - intros t Ht. destruct (allRules !! t) eqn:E; [eauto|]. exfalso.
    by apply (Hno (DanglingReference t)), DanglingReference_elem.
Qed.

Lemma valid_document_is_well_formed_witness :
  let content := text ["---"; "Description: d"; "Globs: *.ts"; "---"; "# Rules"] in
  ∃ header rest,
    content = lit "---" ++ header ++ DELIM ++ rest
    ∧ includes header (lit "Description:") = true
    ∧ includes header (lit "Globs:") = true
    ∧ chr "#" ∈ rest
    ∧ ∀ t, t ∈ referencesOf content
           → is_Some ((∅ : gmap jsstring RuleEntry) !! t).
Proof.
  intros content. apply (valid_document_is_well_formed (lit "a.mdc") content ∅).
  by vm_compute.
Defined.

(** ** The known set *)

Lemma filter_sublist_impl {A} (P Q : A → Prop)
    `{!∀ x, Decision (P x)} `{!∀ x, Decision (Q x)} (l : list A) :
  (∀ x, P x → Q x) → filter P l `sublist_of` filter Q l.
Proof.
  intros HPQ. induction l as [|x l IH]; [constructor|].
  rewrite !filter_cons. destruct (decide (P x)) as [HP|HP].
  - rewrite decide_True by auto. by constructor.
  - destruct (decide (Q x)); [by constructor|done].
Qed.

(** Knowing more files can only take DanglingReference diagnostics away:
    with a larger known set the diagnostics of a document are a sublist
    of what they were, and a valid document stays valid.  With the same
    known identifiers the result is the same, whatever is stored under
    them. *)
Theorem known_set_monotone (filename content : jsstring)
    (m1 m2 : gmap jsstring RuleEntry) :
  (∀ t, is_Some (m1 !! t) → is_Some (m2 !! t)) →
  errors (validateRuleFile filename content m2)
    `sublist_of` errors (validateRuleFile filename content m1)
  ∧ (valid (validateRuleFile filename content m1) = true →
     valid (validateRuleFile filename content m2) = true)
  ∧ ((∀ t, is_Some (m2 !! t) → is_Some (m1 !! t)) →
     validateRuleFile filename content m1 = validateRuleFile filename content m2).
Proof.
  intros Hm.
  assert (Hsub : errors (validateRuleFile filename content m2)
                   `sublist_of` errors (validateRuleFile filename content m1)).
  { rewrite !errors_eq. repeat (apply sublist_app; [done|]).
    apply sublist_app; [|done]. unfold referenceErrors.
    apply fmap_sublist, filter_sublist_impl.
    intros t. rewrite !eq_None_not_Some. auto. }
  split; [done|]. split.
  - rewrite !valid_iff. intros H1. rewrite H1 in Hsub. by apply sublist_nil_r.
  - intros Hm'. apply validateRuleFile_ext. intros t.
    rewrite !eq_None_not_Some. split; auto.
Qed.

Lemma known_set_monotone_witness :
  let content := text ["---"; "Description: d"; "Globs: *"; "---"; "# T"; "@base.mdc"] in
  let m1 : gmap jsstring RuleEntry := ∅ in
  let m2 : gmap jsstring RuleEntry := {[ lit "base.mdc" := {| path := lit "p" |} ]} in
  errors (validateRuleFile (lit "a.mdc") content m2)
    `sublist_of` errors (validateRuleFile (lit "a.mdc") content m1)
  ∧ (valid (validateRuleFile (lit "a.mdc") content m1) = true →
     valid (validateRuleFile (lit "a.mdc") content m2) = true)
  ∧ ((∀ t, is_Some (m2 !! t) → is_Some (m1 !! t)) →
     validateRuleFile (lit "a.mdc") content m1 = validateRuleFile (lit "a.mdc") content m2).
Proof.
  intros content m1 m2. apply (known_set_monotone (lit "a.mdc") content m1 m2).
  intros t. subst m1. rewrite lookup_empty. by intros [? ?].
Defined.

Lemma firstPass_lookup_Some_from (e : Env) (files : list jsstring)
    (m : gmap jsstring RuleEntry) (t : jsstring) :
  foldl (λ allRules file, <[file := {| path := pathJoin e (RULES_DIR e) file |}]> allRules)
        m files !! t
  = if decide (t ∈ files) then Some {| path := pathJoin e (RULES_DIR e) t |} else m !! t.
Proof.
  revert m. induction files as [|f files IH]; intros m; cbn [foldl].
  - destruct (decide (t ∈ [])) as [H|H]; [by apply elem_of_nil in H|done].
  - rewrite IH.
    destruct (decide (t ∈ files)) as [Hin|Hin], (decide (t ∈ f :: files)) as [Hin'|Hin'].
    + done.
    + exfalso. apply Hin'. by right.
    + apply elem_of_cons in Hin' as [->|?]; [|done]. apply lookup_insert_eq.
    + apply lookup_insert_ne. intros ->. apply Hin'. by left.
Qed.

(** After the first pass every enumerated file is registered under its
    identifier, with its own path, also when it is enumerated more than
    once; nothing else is registered. *)
Theorem firstPass_registers_files (e : Env) (files : list jsstring) (t : jsstring) :
  firstPass e files !! t
  = if decide (t ∈ files) then Some {| path := pathJoin e (RULES_DIR e) t |} else None.
Proof. unfold firstPass. by rewrite firstPass_lookup_Some_from, lookup_empty. Qed.



(** ** The report of a run *)

Lemma passes_reportOf_cons (e : Env) allRules (file content : jsstring) :
  readOf e file = ReadOk content →
  passes e allRules file = valid (validateRuleFile file content allRules)
  ∧ reportOf e allRules file = fileLines e allRules file content.
Proof. intros H. unfold passes, reportOf. by rewrite H. Qed.

(** The second pass over files that can all be read: one block of lines
    per file, in order; the valid files collected in order; [hasErrors]
    set when one of them does not pass. *)
Lemma secondPass_report (e : Env) allRules (files : list jsstring) (st : RunState) :
  forallb (λ file, match readOf e file with ReadOk _ => true | ReadThrows _ => false end)
          files = true →
  secondPass e allRules files st
  = ({| hasErrors := hasErrors st || negb (forallb (passes e allRules) files);
        validFiles := validFiles st ++ filter (λ f, passes e allRules f = true) files;
        printed := printed st ++ (files ≫= reportOf e allRules) |}, None).
Proof.
  revert st. induction files as [|file files IH]; intros st; cbn [secondPass forallb].
  - intros _. cbn [negb]. rewrite orb_false_r, filter_nil, !app_nil_r. by destruct st.
  - unfold readOf at 1. fold (readOf e file).
    destruct (readOf e file) as [content|err] eqn:Hread; [|done].
    cbn [andb]. intros Hall.
    destruct (passes_reportOf_cons e allRules file content Hread) as [Hp Hl].
    rewrite filter_cons, Hp. cbn [mbind list_bind]. rewrite Hl. unfold fileLines.
    destruct (valid (validateRuleFile file content allRules)) eqn:Hv.
    + rewrite IH by done. cbn [hasErrors validFiles printed andb].
      rewrite decide_True by done. by rewrite <- !app_assoc.
    + rewrite IH by done. cbn [hasErrors validFiles printed andb negb].
      rewrite decide_False by done. rewrite orb_true_r. by rewrite <- !app_assoc.
Qed.

Lemma secondPass_app (e : Env) allRules (l1 l2 : list jsstring) (st : RunState) :
  secondPass e allRules (l1 ++ l2) st
  = match secondPass e allRules l1 st with
    | (st1, None) => secondPass e allRules l2 st1
    | (st1, Some err) => (st1, Some err)
    end.
Proof.
  revert st. induction l1 as [|file l1 IH]; intros st; [done|].
  cbn [app secondPass]. destruct (readFileSync e _); [|done].
  destruct (valid _); apply IH.
Qed.

Lemma filter_partition_length {A} (p : A → bool) (l : list A) :
  length (filter (λ x, p x = true) l) + length (filter (λ x, p x = false) l) = length l.
Proof.
  induction l as [|x l IH]; [done|]. rewrite !filter_cons.
  destruct (p x); simpl; lia.
Qed.

Lemma forallb_filter_false {A} (p : A → bool) (l : list A) :
  forallb p l = true ↔ length (filter (λ x, p x = false) l) = 0.
Proof.
  induction l as [|x l IH]; [done|]. rewrite filter_cons. cbn [forallb].
  destruct (p x); simpl; [done|]. split; [done|lia].
Qed.

(** Validation continues after an invalid document: in a run whose files
    are all read, every file is reported, in enumeration order, by its
    check mark or by its cross and errors; the summary counts the files
    that pass and those that do not, which add up to the number of
    files; the last line is printed when all of them pass. *)
Theorem report_in_enumeration_order (e : Env) :
  existsSync e (RULES_DIR e) = true → readable e = true → ruleFilesOf e ≠ [] →
  let allRules := firstPass e (ruleFilesOf e) in
  let nValid := length (filter (λ f, passes e allRules f = true) (ruleFilesOf e)) in
  let nInvalid := length (filter (λ f, passes e allRules f = false) (ruleFilesOf e)) in
  console (validateRules e)
  = [(Stdout, chalk e Blue (lit "Validating Cursor rules..."));
     (Stdout, chalk e Green (lit "Found " ++ decimal (length (ruleFilesOf e))
                               ++ lit " rule files"))]
      ++ (ruleFilesOf e ≫= reportOf e allRules)
      ++ [(Stdout, NL :: chalk e Blue (lit "Validation Summary:"));
          (Stdout, chalk e Green (CHECK :: lit " " ++ decimal nValid ++ lit " valid files"));
          (Stdout, chalk e Red (CROSS :: lit " " ++ decimal nInvalid
                                  ++ lit " files with errors"))]
      ++ (if bool_decide (nInvalid = 0)
          then [(Stdout, chalk e Green (NL :: lit "All rules are valid!"))] else [])
  ∧ nValid + nInvalid = length (ruleFilesOf e).
Proof.
  intros Hdir Hread Hne allRules nValid nInvalid.
  pose proof (filter_partition_length (passes e allRules) (ruleFilesOf e)) as Hsum.
  fold nValid nInvalid in Hsum. split; [|done].
  unfold validateRules. rewrite Hdir. cbn [negb]. fold (ruleFilesOf e).
  rewrite bool_decide_eq_false_2 by (by intros ?%length_zero_iff_nil).
  fold allRules. rewrite (secondPass_report e allRules _ _ Hread).
  cbn [hasErrors validFiles printed orb app]. fold nValid.
  replace (length (ruleFilesOf e) - nValid) with nInvalid by lia.
  pose proof (forallb_filter_false (passes e allRules) (ruleFilesOf e)) as Hall.
  fold nInvalid in Hall.
  destruct (forallb (passes e allRules) (ruleFilesOf e)); cbn [negb console].
  - rewrite bool_decide_eq_true_2 by (by apply Hall).
    by rewrite <- ?app_assoc.
  - rewrite bool_decide_eq_false_2 by (intros H0; by apply Hall in H0).
    by rewrite ?app_nil_r.
Qed.

Lemma report_in_enumeration_order_witness :
  let e := sampleEnv "/repo/.cursor/rules"
             [(lit "orphan.mdc", text ["---"; "Description: d"; "Globs: *"; "---"; "# O";
                                       "@missing.mdc"]);
              (lit "base.mdc", text ["---"; "Description: d"; "Globs: *"; "---"; "# Base"])] in
  let allRules := firstPass e (ruleFilesOf e) in
  let nValid := length (filter (λ f, passes e allRules f = true) (ruleFilesOf e)) in
  let nInvalid := length (filter (λ f, passes e allRules f = false) (ruleFilesOf e)) in
  console (validateRules e)
  = [(Stdout, chalk e Blue (lit "Validating Cursor rules..."));
     (Stdout, chalk e Green (lit "Found " ++ decimal (length (ruleFilesOf e))
                               ++ lit " rule files"))]
      ++ (ruleFilesOf e ≫= reportOf e allRules)
      ++ [(Stdout, NL :: chalk e Blue (lit "Validation Summary:"));
          (Stdout, chalk e Green (CHECK :: lit " " ++ decimal nValid ++ lit " valid files"));
          (Stdout, chalk e Red (CROSS :: lit " " ++ decimal nInvalid
                                  ++ lit " files with errors"))]
      ++ (if bool_decide (nInvalid = 0)
          then [(Stdout, chalk e Green (NL :: lit "All rules are valid!"))] else [])
  ∧ nValid + nInvalid = length (ruleFilesOf e).
Proof.
  intros e. apply (report_in_enumeration_order e).
  - by vm_compute.
  - by vm_compute.
  - by vm_compute.
Defined.

(** A read that throws ends the run at that file: the files before it
    have been reported, no later file is looked at, no summary is
    printed, and the exit code is 1. *)
Theorem read_failure_stops_run (e : Env) (ok rest : list jsstring) (bad err : jsstring) :
  existsSync e (RULES_DIR e) = true →
  ruleFilesOf e = ok ++ bad :: rest →
  forallb (λ file, match readOf e file with ReadOk _ => true | ReadThrows _ => false end)
          ok = true →
  readOf e bad = ReadThrows err →
  validateRules e
  = {| console :=
         [(Stdout, chalk e Blue (lit "Validating Cursor rules..."));
          (Stdout, chalk e Green (lit "Found " ++ decimal (length (ruleFilesOf e))
                                    ++ lit " rule files"))]
           ++ (ok ≫= reportOf e (firstPass e (ruleFilesOf e)))
           ++ [(Stderr, chalk e Red (lit "Error during validation:") ++ lit " " ++ err)];
       exitCode := 1 |}.
Proof.
  intros Hdir Hfiles Hok Hbad. unfold validateRules. rewrite Hdir. cbn [negb].
  fold (ruleFilesOf e). generalize (firstPass e (ruleFilesOf e)). intros allRules.
  rewrite Hfiles.
  rewrite bool_decide_eq_false_2 by (rewrite length_app; cbn [length]; lia).
  rewrite secondPass_app, (secondPass_report _ _ _ _ Hok).
  cbn [secondPass]. fold (readOf e bad). rewrite Hbad.
  cbn [printed]. by rewrite <- ?app_assoc.
Qed.

Lemma read_failure_stops_run_witness :
  let e := {| RULES_DIR := lit "/r";
              existsSync := λ _, true;
              globSync := λ _, [lit "a.mdc"; lit "dir.mdc"; lit "b.mdc"];
              readFileSync := λ p, if bool_decide (p = lit "/r/a.mdc")
                                   then ReadOk (lit "# A")
                                   else ReadThrows (lit "EISDIR");
              pathJoin := λ d f, d ++ lit "/" ++ f;
              chalk := λ _ s, s |} in
  validateRules e
  = {| console :=
         [(Stdout, chalk e Blue (lit "Validating Cursor rules..."));
          (Stdout, chalk e Green (lit "Found " ++ decimal (length (ruleFilesOf e))
                                    ++ lit " rule files"))]
           ++ ([lit "a.mdc"] ≫= reportOf e (firstPass e (ruleFilesOf e)))
           ++ [(Stderr, chalk e Red (lit "Error during validation:") ++ lit " "
                          ++ lit "EISDIR")];
       exitCode := 1 |}.
Proof.
  intros e.
  apply (read_failure_stops_run e [lit "a.mdc"] [lit "b.mdc"] (lit "dir.mdc") (lit "EISDIR")).
  - reflexivity.
  - reflexivity.
  - by vm_compute.
  - by vm_compute.
Defined.

(** The exit code of every run is 0 or 1, and it is 0 exactly when the
    rules directory exists, every enumerated file is read and no document
    has a diagnostic (in particular when no file is found). *)
Theorem exit_code_contract (e : Env) :
  (exitCode (validateRules e) = 0%Z ∨ exitCode (validateRules e) = 1%Z)
  ∧ (exitCode (validateRules e) = 0%Z
     ↔ existsSync e (RULES_DIR e) = true ∧ readable e = true
       ∧ ∀ file, file ∈ ruleFilesOf e → diagnosticsOf e file = []).
Proof.
  destruct (existsSync e (RULES_DIR e)) eqn:Hdir.
  2: { rewrite (missing_directory_exit_code e Hdir). split; [by right|].
       split; [done|]. by intros [? _]. }
  destruct (readable e) eqn:Hread.
  2: { rewrite (unreadable_file_exit_code e Hdir Hread). split; [by right|].
       split; [done|]. by intros (_ & ? & _). }
  assert (Hall : forallb (passes e (firstPass e (ruleFilesOf e))) (ruleFilesOf e) = true
                 ↔ ∀ file, file ∈ ruleFilesOf e → diagnosticsOf e file = []).
  { rewrite forallb_forall. unfold readable in Hread. rewrite forallb_forall in Hread.
    split; intros H file Hf.
    - apply list_elem_of_In in Hf. specialize (H file Hf). specialize (Hread file Hf).
      unfold passes, diagnosticsOf in *. destruct (readOf e file); [|done].
      by apply valid_iff.
    - specialize (Hread file Hf). apply list_elem_of_In in Hf. specialize (H file Hf).
      unfold passes, diagnosticsOf in *. destruct (readOf e file); [|done].
      by apply valid_iff. }
  unfold validateRules. rewrite Hdir. cbn [negb]. fold (ruleFilesOf e).
  case_bool_decide as Hlen.
  - cbn [exitCode]. split; [by left|]. split; [|done]. intros _.
    split; [done|]. split; [done|]. apply length_zero_iff_nil in Hlen.
    rewrite Hlen. by intros file ?%elem_of_nil.
  - rewrite (secondPass_report e _ _ _ Hread). cbn [hasErrors orb].
    destruct (forallb _ (ruleFilesOf e)); cbn [negb exitCode].
    + split; [by left|]. split; [|done]. intros _. split; [done|]. split; [done|].
      by apply Hall.
    + split; [by right|]. split; [done|]. intros (_ & _ & H). by apply Hall in H.
Qed.

(** ** The pattern-list check and the key check *)

Lemma matchFirst_suffix r (s : jsstring) m :
  matchFirst r s = Some m → ∃ pre s', s = pre ++ s' ∧ matchAt r s' = Some m.
Proof.
  induction s as [|x s IH]; cbn [matchFirst].
  - destruct (matchAt r []) eqn:E; [|done]. intros [= <-]. by exists [], [].
  - destruct (matchAt r (x :: s)) eqn:E.
    + intros [= <-]. by exists [], (x :: s).
    + intros (pre & s' & -> & ?)%IH. by exists (x :: pre), s'.
Qed.

(** The validator never reports the pattern list both as empty and as
    missing: an empty pattern list is only reported where the header
    block holds [Globs:]. *)
Theorem empty_value_excludes_missing_key filename content allRules :
  EmptyRequiredValue ∈ errors (validateRuleFile filename content allRules) →
  includes (frontmatterOf content) (lit "Globs:") = true
  ∧ MissingRequiredKey (lit "Globs") ∉ errors (validateRuleFile filename content allRules).
Proof.
  intros He.
  assert (Hinc : includes (frontmatterOf content) (lit "Globs:") = true).
  { apply errors_elem in He.
    rewrite headerErrors_elem, closingErrors_elem, keyErrors_elem,
      referenceErrors_elem, bodyErrors_elem in He.
    destruct (messages_distinct [] [])
      as (_ & _ & D1 & _ & _ & _ & D2 & _ & _ & _ & _ & _ & _ & D3 & _).
    destruct He as [[E _]|[[E _]|[(s & E & _)|[Hg|[(t & E & _)|[E _]]]]]]; try done.
    unfold globsErrors in Hg.
    destruct (matchFirst globsRegex (frontmatterOf content)) as [m|] eqn:Hm;
      [|by apply elem_of_nil in Hg].
    apply matchFirst_suffix in Hm as (pre & s' & Hfm & Hm).
    unfold matchAt, globsRegex in Hm.
    apply run_sound in Hm as (r & c & HM & _).
    apply Matches_Seq in HM as (s1 & c1 & H1 & _).
    apply Matches_Str in H1 as [-> _].
    apply includes_true. eauto. }
  split; [done|]. rewrite MissingRequiredKey_elem. intros [_ H].
  change (lit "Globs" ++ lit ":") with (lit "Globs:") in H. congruence.
Qed.

Lemma empty_value_excludes_missing_key_witness :
  let content :=
    text ["---"; "Description: Globs: "] ++ NL :: lit "Globs: x" ++ 13%N :: lit "y"
      ++ NL :: text ["---"; "# T"] in
  includes (frontmatterOf content) (lit "Globs:") = true
  ∧ MissingRequiredKey (lit "Globs") ∉ errors (validateRuleFile (lit "a.mdc") content ∅).
Proof.
  intros content.
  apply (empty_value_excludes_missing_key (lit "a.mdc") content ∅).
  apply list_elem_of_In. vm_compute. tauto.
Defined.

(** ** Texts with [\r\n] line ends *)

Lemma crlfFrom_delimiter (prev : N) (a b : jsstring) :
  crlfFrom prev (a ++ DELIM ++ b) = false.
Proof.
  revert prev. induction a as [|x a IH]; intros prev.
  - unfold DELIM. rewrite lit_dashes. cbn [app crlfFrom].
    change (45 =? NL)%N with false. change (NL =? NL)%N with true.
    change (45 =? 13)%N with false. cbn [andb]. by destruct (prev =? 13)%N.
  - cbn [app crlfFrom]. by rewrite IH, andb_false_r.
Qed.

(** A text with [\r\n] line ends has no delimiter line as the script
    looks for it, so that every such document is reported with an
    unterminated header block and is invalid. *)
Theorem crlf_document_unterminated filename content allRules :
  crlfLines content = true →
  includes content DELIM = false
  ∧ UnterminatedHeaderBlock ∈ errors (validateRuleFile filename content allRules)
  ∧ valid (validateRuleFile filename content allRules) = false.
Proof.
  intros Hcrlf.
  assert (Hd : includes content DELIM = false).
  { destruct (includes content DELIM) eqn:E; [|done].
    apply includes_true in E as (a & b & ->).
    unfold crlfLines in Hcrlf. by rewrite crlfFrom_delimiter in Hcrlf. }
  assert (Hin : UnterminatedHeaderBlock ∈ errors (validateRuleFile filename content allRules)).
  { apply errors_elem. right. left. by apply closingErrors_elem. }
  split; [done|]. split; [done|].
  destruct (valid _) eqn:Hv; [|done].
  apply valid_iff in Hv. rewrite Hv in Hin. by apply elem_of_nil in Hin.
Qed.

Lemma crlf_document_unterminated_witness :
  let content :=
    lit "---" ++ [13; 10]%N ++ lit "Description: d" ++ [13; 10]%N
      ++ lit "Globs: *.ts" ++ [13; 10]%N ++ lit "---" ++ [13; 10]%N
      ++ lit "# Title" ++ [13; 10]%N in
  includes content DELIM = false
  ∧ UnterminatedHeaderBlock ∈ errors (validateRuleFile (lit "a.mdc") content ∅)
  ∧ valid (validateRuleFile (lit "a.mdc") content ∅) = false.
Proof.
  intros content. apply (crlf_document_unterminated (lit "a.mdc") content ∅).
  by vm_compute.
Defined.

(** ** A document among the others *)


